(** * Authentication and session lifecycle of zedslab/starter

    A shallow embedding of the server-side authentication code
    (the User model's lockout and password-history methods, the login
    controller, the JWT authentication middleware, the CSRF guard of the
    security configuration) and of the client's single-flight token
    refresh, followed by the properties established about them.

    Modelling conventions.
    - A JavaScript number that only ever holds an integer is a [Z]; the
      model is exact while magnitudes stay within the safe integer range
      (below 2^53).  [NaN] is kept apart, since [parseInt] produces it and
      every comparison with it is false.
    - A JavaScript string is the [string] of its UTF-8 bytes, which is what
      [Buffer.from] hands to the comparison of the CSRF guard.
    - [null]/[undefined] are [None].
    - An [await]ed call is the value it resolves to; a [throw] is an
      explicit outcome.  Logging has no effect on any result and is left
      out. *)

From Stdlib Require Import ZArith NArith Ascii String List Bool Lia.
From stdpp Require Import base option list strings pretty sorting gmap.

Local Open Scope string_scope.
Local Open Scope Z_scope.

(** ** JavaScript values used by the code *)

Module Js.

(** A Number restricted to the integers, or NaN. *)
Inductive Num : Type :=
| NaN : Num
| Fin : Z -> Num.

Definition num_add (a b : Num) : Num :=
  match a, b with
  | Fin x, Fin y => Fin (x + y)
  | _, _ => NaN
  end.

(** [a >= b] and [a > b]: false as soon as one side is NaN. *)
Definition num_ge (a b : Num) : bool :=
  match a, b with
  | Fin x, Fin y => x >=? y
  | _, _ => false
  end.

Definition num_gt (a b : Num) : bool :=
  match a, b with
  | Fin x, Fin y => x >? y
  | _, _ => false
  end.

(** A Date is its time value in milliseconds; [new Date(t)] clips:
    outside +-8.64e15 the date is invalid (time value NaN). *)
Definition Date : Type := Num.

Definition maxTime : Z := 8640000000000000.

Definition newDate (t : Num) : Date :=
  match t with
  | Fin x => if (- maxTime <=? x) && (x <=? maxTime) then Fin x else NaN
  | NaN => NaN
  end.

(** Truthiness of an optional string: [undefined], [null] and the empty
    string are falsy. *)
Definition truthy_str (s : option string) : bool :=
  match s with
  | Some (String _ _) => true
  | _ => false
  end.

(** [a || b] on optional strings. *)
Definition or_str (a b : option string) : option string :=
  if truthy_str a then a else b.

(** The string behind an optional string that was found truthy. *)
Definition of_opt (s : option string) : string :=
  match s with
  | Some x => x
  | None => ""
  end.

(** White space skipped by [parseInt] and removed by [trim] (the ASCII
    part of it). *)
Definition is_space (c : ascii) : bool :=
  let n := N_of_ascii c in
  ((9 <=? n) && (n <=? 13) || (n =? 32))%N.

Fixpoint skip_space (s : string) : string :=
  match s with
  | String c r => if is_space c then skip_space r else s
  | EmptyString => EmptyString
  end.

Definition digit_of (c : ascii) : option Z :=
  let n := N_of_ascii c in
  if ((48 <=? n) && (n <=? 57))%N then Some (Z.of_N n - 48) else None.

(** The longest prefix of decimal digits, read as a number; NaN when
    there is none. *)
Fixpoint digits (s : string) (acc : Z) (seen : bool) : Num :=
  match s with
  | String c r =>
      match digit_of c with
      | Some d => digits r (acc * 10 + d) true
      | None => if seen then Fin acc else NaN
      end
  | EmptyString => if seen then Fin acc else NaN
  end.

Definition num_neg (a : Num) : Num :=
  match a with
  | Fin x => Fin (- x)
  | NaN => NaN
  end.

(** [parseInt(s, 10)]. *)
Definition parseInt (s : string) : Num :=
  match skip_space s with
  | String "-" r => num_neg (digits r 0 false)
  | String "+" r => digits r 0 false
  | r => digits r 0 false
  end.

(** [String.prototype.trim]. *)
Definition trim (s : string) : string :=
  String.rev (skip_space (String.rev (skip_space s))).

(** What a method of the model may return where the code returns the
    value of an [&&] chain. *)
Inductive Val : Type :=
| VBool : bool -> Val
| VNull : Val.

Definition truthy (v : Val) : bool :=
  match v with
  | VBool b => b
  | VNull => false
  end.

#[global] Arguments num_ge : simpl never.
#[global] Arguments num_gt : simpl never.
#[global] Arguments num_add : simpl never.
#[global] Arguments newDate : simpl never.

End Js.

(** ** Process environment *)

Record Env : Type := {
  MAX_LOGIN_ATTEMPTS : option string;
  LOCKOUT_TIME : option string;
  BCRYPT_ROUNDS : option string;
  JWT_SECRET : option string;
  JWT_REFRESH_SECRET : option string
}.

(** [process.env.X || dflt] *)
Definition env_or (v : option string) (dflt : string) : string :=
  match Js.or_str v (Some dflt) with
  | Some s => s
  | None => dflt
  end.

Definition default_env : Env :=
  {| MAX_LOGIN_ATTEMPTS := None; LOCKOUT_TIME := None; BCRYPT_ROUNDS := None;
     JWT_SECRET := Some "secret"; JWT_REFRESH_SECRET := Some "refresh-secret" |}.

(** The bcrypt library, of which the code uses three functions.  The salt
    is drawn at random by the library: [genSalt] stands for the draw of one
    run. *)
Record Bcrypt : Type := {
  genSalt : Js.Num -> string;
  hash : string -> string -> string;
  compare : option string -> option string -> bool
}.

(** ** The User model *)

Module UserModel.
Import Js.

(** The fields of the user schema that the authentication code reads or
    writes.  [password] is the transient plain-text field of the
    pre-save hook; [modifiedPaths] is the document's record of the paths
    assigned since it was loaded or saved, which [isModified] consults. *)
Record User : Type := {
  _id : string;
  email : string;
  firstName : string;
  lastName : string;
  fullName : option string;
  password : option string;
  passwordHash : option string;
  passwordSalt : option string;
  passwordHistory : list string;
  lastPasswordChange : Z;
  roles : list string;
  isActive : bool;
  isLocked : bool;
  lockUntil : option Date;
  lockReason : option string;
  loginAttempts : Z;
  failedLoginAttempts : Z;
  lastLogin : option Z;
  loginCount : Z;
  modifiedPaths : list string
}.

Definition set_fullName (v : option string) (u : User) : User :=
  {| _id := _id u; email := email u; firstName := firstName u;
     lastName := lastName u; fullName := v; password := password u;
     passwordHash := passwordHash u; passwordSalt := passwordSalt u;
     passwordHistory := passwordHistory u;
     lastPasswordChange := lastPasswordChange u; roles := roles u;
     isActive := isActive u; isLocked := isLocked u;
     lockUntil := lockUntil u; lockReason := lockReason u;
     loginAttempts := loginAttempts u;
     failedLoginAttempts := failedLoginAttempts u; lastLogin := lastLogin u;
     loginCount := loginCount u; modifiedPaths := modifiedPaths u |}.

Definition set_password (v : option string) (u : User) : User :=
  {| _id := _id u; email := email u; firstName := firstName u;
     lastName := lastName u; fullName := fullName u; password := v;
     passwordHash := passwordHash u; passwordSalt := passwordSalt u;
     passwordHistory := passwordHistory u;
     lastPasswordChange := lastPasswordChange u; roles := roles u;
     isActive := isActive u; isLocked := isLocked u;
     lockUntil := lockUntil u; lockReason := lockReason u;
     loginAttempts := loginAttempts u;
     failedLoginAttempts := failedLoginAttempts u; lastLogin := lastLogin u;
     loginCount := loginCount u; modifiedPaths := modifiedPaths u |}.

Definition set_passwordHash (v : option string) (u : User) : User :=
  {| _id := _id u; email := email u; firstName := firstName u;
     lastName := lastName u; fullName := fullName u; password := password u;
     passwordHash := v; passwordSalt := passwordSalt u;
     passwordHistory := passwordHistory u;
     lastPasswordChange := lastPasswordChange u; roles := roles u;
     isActive := isActive u; isLocked := isLocked u;
     lockUntil := lockUntil u; lockReason := lockReason u;
     loginAttempts := loginAttempts u;
     failedLoginAttempts := failedLoginAttempts u; lastLogin := lastLogin u;
     loginCount := loginCount u; modifiedPaths := modifiedPaths u |}.

Definition set_passwordSalt (v : option string) (u : User) : User :=
  {| _id := _id u; email := email u; firstName := firstName u;
     lastName := lastName u; fullName := fullName u; password := password u;
     passwordHash := passwordHash u; passwordSalt := v;
     passwordHistory := passwordHistory u;
     lastPasswordChange := lastPasswordChange u; roles := roles u;
     isActive := isActive u; isLocked := isLocked u;
     lockUntil := lockUntil u; lockReason := lockReason u;
     loginAttempts := loginAttempts u;
     failedLoginAttempts := failedLoginAttempts u; lastLogin := lastLogin u;
     loginCount := loginCount u; modifiedPaths := modifiedPaths u |}.

Definition set_passwordHistory (v : list string) (u : User) : User :=
  {| _id := _id u; email := email u; firstName := firstName u;
     lastName := lastName u; fullName := fullName u; password := password u;
     passwordHash := passwordHash u; passwordSalt := passwordSalt u;
     passwordHistory := v; lastPasswordChange := lastPasswordChange u;
     roles := roles u; isActive := isActive u; isLocked := isLocked u;
     lockUntil := lockUntil u; lockReason := lockReason u;
     loginAttempts := loginAttempts u;
     failedLoginAttempts := failedLoginAttempts u; lastLogin := lastLogin u;
     loginCount := loginCount u; modifiedPaths := modifiedPaths u |}.

Definition set_lastPasswordChange (v : Z) (u : User) : User :=
  {| _id := _id u; email := email u; firstName := firstName u;
     lastName := lastName u; fullName := fullName u; password := password u;
     passwordHash := passwordHash u; passwordSalt := passwordSalt u;
     passwordHistory := passwordHistory u; lastPasswordChange := v;
     roles := roles u; isActive := isActive u; isLocked := isLocked u;
     lockUntil := lockUntil u; lockReason := lockReason u;
     loginAttempts := loginAttempts u;
     failedLoginAttempts := failedLoginAttempts u; lastLogin := lastLogin u;
     loginCount := loginCount u; modifiedPaths := modifiedPaths u |}.

Definition set_isActive (v : bool) (u : User) : User :=
  {| _id := _id u; email := email u; firstName := firstName u;
     lastName := lastName u; fullName := fullName u; password := password u;
     passwordHash := passwordHash u; passwordSalt := passwordSalt u;
     passwordHistory := passwordHistory u;
     lastPasswordChange := lastPasswordChange u; roles := roles u;
     isActive := v; isLocked := isLocked u; lockUntil := lockUntil u;
     lockReason := lockReason u; loginAttempts := loginAttempts u;
     failedLoginAttempts := failedLoginAttempts u; lastLogin := lastLogin u;
     loginCount := loginCount u; modifiedPaths := modifiedPaths u |}.

Definition set_isLocked (v : bool) (u : User) : User :=
  {| _id := _id u; email := email u; firstName := firstName u;
     lastName := lastName u; fullName := fullName u; password := password u;
     passwordHash := passwordHash u; passwordSalt := passwordSalt u;
     passwordHistory := passwordHistory u;
     lastPasswordChange := lastPasswordChange u; roles := roles u;
     isActive := isActive u; isLocked := v; lockUntil := lockUntil u;
     lockReason := lockReason u; loginAttempts := loginAttempts u;
     failedLoginAttempts := failedLoginAttempts u; lastLogin := lastLogin u;
     loginCount := loginCount u; modifiedPaths := modifiedPaths u |}.

Definition set_lockUntil (v : option Date) (u : User) : User :=
  {| _id := _id u; email := email u; firstName := firstName u;
     lastName := lastName u; fullName := fullName u; password := password u;
     passwordHash := passwordHash u; passwordSalt := passwordSalt u;
     passwordHistory := passwordHistory u;
     lastPasswordChange := lastPasswordChange u; roles := roles u;
     isActive := isActive u; isLocked := isLocked u; lockUntil := v;
     lockReason := lockReason u; loginAttempts := loginAttempts u;
     failedLoginAttempts := failedLoginAttempts u; lastLogin := lastLogin u;
     loginCount := loginCount u; modifiedPaths := modifiedPaths u |}.

Definition set_lockReason (v : option string) (u : User) : User :=
  {| _id := _id u; email := email u; firstName := firstName u;
     lastName := lastName u; fullName := fullName u; password := password u;
     passwordHash := passwordHash u; passwordSalt := passwordSalt u;
     passwordHistory := passwordHistory u;
     lastPasswordChange := lastPasswordChange u; roles := roles u;
     isActive := isActive u; isLocked := isLocked u;
     lockUntil := lockUntil u; lockReason := v;
     loginAttempts := loginAttempts u;
     failedLoginAttempts := failedLoginAttempts u; lastLogin := lastLogin u;
     loginCount := loginCount u; modifiedPaths := modifiedPaths u |}.

Definition set_loginAttempts (v : Z) (u : User) : User :=
  {| _id := _id u; email := email u; firstName := firstName u;
     lastName := lastName u; fullName := fullName u; password := password u;
     passwordHash := passwordHash u; passwordSalt := passwordSalt u;
     passwordHistory := passwordHistory u;
     lastPasswordChange := lastPasswordChange u; roles := roles u;
     isActive := isActive u; isLocked := isLocked u;
     lockUntil := lockUntil u; lockReason := lockReason u;
     loginAttempts := v; failedLoginAttempts := failedLoginAttempts u;
     lastLogin := lastLogin u; loginCount := loginCount u;
     modifiedPaths := modifiedPaths u |}.

Definition set_failedLoginAttempts (v : Z) (u : User) : User :=
  {| _id := _id u; email := email u; firstName := firstName u;
     lastName := lastName u; fullName := fullName u; password := password u;
     passwordHash := passwordHash u; passwordSalt := passwordSalt u;
     passwordHistory := passwordHistory u;
     lastPasswordChange := lastPasswordChange u; roles := roles u;
     isActive := isActive u; isLocked := isLocked u;
     lockUntil := lockUntil u; lockReason := lockReason u;
     loginAttempts := loginAttempts u; failedLoginAttempts := v;
     lastLogin := lastLogin u; loginCount := loginCount u;
     modifiedPaths := modifiedPaths u |}.

Definition set_lastLogin (v : option Z) (u : User) : User :=
  {| _id := _id u; email := email u; firstName := firstName u;
     lastName := lastName u; fullName := fullName u; password := password u;
     passwordHash := passwordHash u; passwordSalt := passwordSalt u;
     passwordHistory := passwordHistory u;
     lastPasswordChange := lastPasswordChange u; roles := roles u;
     isActive := isActive u; isLocked := isLocked u;
     lockUntil := lockUntil u; lockReason := lockReason u;
     loginAttempts := loginAttempts u;
     failedLoginAttempts := failedLoginAttempts u; lastLogin := v;
     loginCount := loginCount u; modifiedPaths := modifiedPaths u |}.

Definition set_loginCount (v : Z) (u : User) : User :=
  {| _id := _id u; email := email u; firstName := firstName u;
     lastName := lastName u; fullName := fullName u; password := password u;
     passwordHash := passwordHash u; passwordSalt := passwordSalt u;
     passwordHistory := passwordHistory u;
     lastPasswordChange := lastPasswordChange u; roles := roles u;
     isActive := isActive u; isLocked := isLocked u;
     lockUntil := lockUntil u; lockReason := lockReason u;
     loginAttempts := loginAttempts u;
     failedLoginAttempts := failedLoginAttempts u; lastLogin := lastLogin u;
     loginCount := v; modifiedPaths := modifiedPaths u |}.

Definition set_modifiedPaths (v : list string) (u : User) : User :=
  {| _id := _id u; email := email u; firstName := firstName u;
     lastName := lastName u; fullName := fullName u; password := password u;
     passwordHash := passwordHash u; passwordSalt := passwordSalt u;
     passwordHistory := passwordHistory u;
     lastPasswordChange := lastPasswordChange u; roles := roles u;
     isActive := isActive u; isLocked := isLocked u;
     lockUntil := lockUntil u; lockReason := lockReason u;
     loginAttempts := loginAttempts u;
     failedLoginAttempts := failedLoginAttempts u; lastLogin := lastLogin u;
     loginCount := loginCount u; modifiedPaths := v |}.

Definition isModified (p : string) (u : User) : bool :=
  bool_decide (p ∈ modifiedPaths u).

(** Only [firstName], [lastName] and [password] are ever asked of
    [isModified]; of these the code assigns [password] alone, so that is
    the one assignment whose mark is recorded. *)
Definition markModified (p : string) (u : User) : User :=
  set_modifiedPaths (p :: modifiedPaths u) u.

(** [userSchema.pre('save')]; [now] is the reading of [Date.now()]. *)
Definition pre_save (env : Env) (bc : Bcrypt) (now : Z) (user : User) : User :=
  (* Generate full name *)
  let user :=
    if isModified "firstName" user || isModified "lastName" user
    then set_fullName (Some (trim (firstName user +:+ " " +:+ lastName user))) user
    else user in
  (* Handle password hashing *)
  if truthy_str (password user) && isModified "password" user then
    let salt := genSalt bc (parseInt (env_or (BCRYPT_ROUNDS env) "12")) in
    let hash' := hash bc (of_opt (password user)) salt in
    (* Add current password to history *)
    let user :=
      if (5 <=? length (passwordHistory user))%nat
      then set_passwordHistory (tail (passwordHistory user)) user
      else user in
    let user :=
      if truthy_str (passwordHash user)
      then set_passwordHistory
             (passwordHistory user ++ [of_opt (passwordHash user)]) user
      else user in
    let user := set_passwordHash (Some hash') user in
    let user := set_passwordSalt (Some salt) user in
    let user := set_lastPasswordChange now user in
    set_password None user
  else user.

(** [save()]: the hook runs, the document is written, and its record of
    modified paths starts afresh. *)
Definition save (env : Env) (bc : Bcrypt) (now : Z) (user : User) : User :=
  set_modifiedPaths [] (pre_save env bc now user).

Definition comparePassword (bc : Bcrypt) (candidatePassword : option string)
    (this : User) : bool :=
  compare bc candidatePassword (passwordHash this).

(** The loop of [isPasswordUsedBefore] over the history. *)
Definition isPasswordUsedBefore (bc : Bcrypt) (candidatePassword : option string)
    (this : User) : bool :=
  existsb (fun historicalPassword =>
             compare bc candidatePassword (Some historicalPassword))
          (passwordHistory this).

Definition maxAttempts (env : Env) : Num :=
  parseInt (env_or (MAX_LOGIN_ATTEMPTS env) "5").

Definition lockTime (env : Env) : Num :=
  parseInt (env_or (LOCKOUT_TIME env) "900000").

Definition incrementLoginAttempts (env : Env) (bc : Bcrypt) (now : Z)
    (this : User) : Z * User :=
  (* Increment login attempts *)
  let this := set_loginAttempts (loginAttempts this + 1) this in
  let this := set_failedLoginAttempts (failedLoginAttempts this + 1) this in
  (* Lock account if max attempts reached *)
  let this :=
    if num_ge (Fin (failedLoginAttempts this)) (maxAttempts env) then
      let this := set_isLocked true this in
      let this := set_lockUntil
                    (Some (newDate (num_add (Fin now) (lockTime env)))) this in
      set_lockReason (Some "Too many failed login attempts") this
    else this in
  let this := save env bc now this in
  (failedLoginAttempts this, this).

Definition resetLoginAttempts (env : Env) (bc : Bcrypt) (now : Z)
    (this : User) : User :=
  let this := set_loginAttempts 0 this in
  let this := set_failedLoginAttempts 0 this in
  let this := set_isLocked false this in
  let this := set_lockUntil None this in
  let this := set_lockReason None this in
  let this := set_lastLogin (Some now) this in
  let this := set_loginCount (loginCount this + 1) this in
  save env bc now this.

(** [this.isLocked && this.lockUntil && this.lockUntil > Date.now()]:
    the value of the chain is that of the first falsy operand, else of
    the comparison.  A Date object is truthy even when invalid. *)
Definition isAccountLocked (now : Z) (this : User) : Val :=
  if isLocked this then
    match lockUntil this with
    | Some d => VBool (num_gt d (Fin now))
    | None => VNull
    end
  else VBool false.

(** A run of consecutive failed attempts on one account, one call of
    [incrementLoginAttempts] for each clock reading of [nows]. *)
Fixpoint failedAttempts (env : Env) (bc : Bcrypt) (nows : list Z)
    (this : User) : User :=
  match nows with
  | [] => this
  | now :: later =>
      failedAttempts env bc later (snd (incrementLoginAttempts env bc now this))
  end.

(** A stand-in for bcrypt and a freshly registered user, for the worked
    examples. *)
Definition toy_bcrypt : Bcrypt :=
  {| genSalt := fun _ => "$2b$12$salt";
     hash := fun pw salt => salt +:+ pw;
     compare := fun pw h =>
       match pw, h with
       | Some p, Some x => String.eqb ("$2b$12$salt" +:+ p) x
       | _, _ => false
       end |}.

Definition alice : User :=
  {| _id := "u1"; email := "alice@example.org"; firstName := "Alice";
     lastName := "Doe"; fullName := Some "Alice Doe"; password := None;
     passwordHash := Some "$2b$12$saltcorrect horse"; passwordSalt := Some "$2b$12$salt";
     passwordHistory := []; lastPasswordChange := 0; roles := ["APPLICANT"];
     isActive := true; isLocked := false; lockUntil := None; lockReason := None;
     loginAttempts := 0; failedLoginAttempts := 0; lastLogin := None;
     loginCount := 0; modifiedPaths := [] |}.

End UserModel.


(** ** What a handler does with a request *)

Record Response : Type := {
  status : Z;
  error : option string;
  message : string
}.

Definition json (code : Z) (err : string) (msg : string) : Response :=
  {| status := code; error := Some err; message := msg |}.

Definition ok200 (msg : string) : Response :=
  {| status := 200; error := None; message := msg |}.

(** A call either completes with a value or throws an error of some name. *)
Inductive Completion (A : Type) : Type :=
| Normal : A -> Completion A
| Throws : string -> Completion A.

Arguments Normal {A} _.
Arguments Throws {A} _.

(** ** The authentication controller *)

Module AuthController.
Import Js UserModel.

Record LoginBody : Type := {
  body_email : option string;
  body_password : option string
}.

Definition lower_ascii (c : ascii) : ascii :=
  let n := N_of_ascii c in
  if ((65 <=? n) && (n <=? 90))%N then ascii_of_N (n + 32) else c.

Fixpoint toLowerCase (s : string) : string :=
  match s with
  | String c r => String (lower_ascii c) (toLowerCase r)
  | EmptyString => EmptyString
  end.

(** [login]: [findOne] is the lookup of a user by e-mail address.  The
    result is the response together with the document as last saved, when
    the handler saved one.  Past the check of the JWT secrets the handler
    mints the two tokens, sets the cookie and issues the CSRF token; none
    of that touches the user document or the status, and the response
    payload is cut down to its message. *)
Definition login (env : Env) (bc : Bcrypt) (now : Z)
    (findOne : string -> option User) (body : LoginBody)
    : Response * option User :=
  (* Validate input *)
  if negb (truthy_str (body_email body)) || negb (truthy_str (body_password body))
  then (json 400 "Bad Request" "Email and password are required", None)
  else
    (* Find user by email *)
    match findOne (toLowerCase (of_opt (body_email body))) with
    | None => (json 401 "Unauthorized" "Invalid email or password", None)
    | Some user =>
        (* Check if account is locked *)
        if truthy (isAccountLocked now user)
        then (json 423 "Account Locked"
                "Account is temporarily locked due to too many failed login attempts",
              None)
        (* Check if account is active *)
        else if negb (isActive user)
        then (json 401 "Unauthorized" "Account is not active", None)
        (* Verify password using bcrypt *)
        else if negb (comparePassword bc (body_password body) user)
        then
          let user := snd (incrementLoginAttempts env bc now user) in
          (json 401 "Unauthorized" "Invalid email or password", Some user)
        else
          (* Reset login attempts on successful login *)
          let user := resetLoginAttempts env bc now user in
          (* Validate JWT secrets *)
          if negb (truthy_str (JWT_SECRET env))
             || negb (truthy_str (JWT_REFRESH_SECRET env))
          then (json 500 "Internal Server Error"
                  "Authentication service not properly configured", Some user)
          else (ok200 "Login successful", Some user)
    end.

(** [changePassword] for the authenticated [user]. *)
Definition changePassword (env : Env) (bc : Bcrypt) (now : Z) (user : User)
    (currentPassword newPassword : option string) : Response * option User :=
  (* Verify current password *)
  if negb (comparePassword bc currentPassword user)
  then (json 400 "Bad Request" "Current password is incorrect", None)
  (* Check if new password was used before *)
  else if isPasswordUsedBefore bc newPassword user
  then (json 400 "Bad Request"
          "New password cannot be the same as a previously used password", None)
  else
    (* Set new password (this will trigger the pre-save hook to hash it) *)
    let user := markModified "password" (set_password newPassword user) in
    let user := save env bc now user in
    (ok200 "Password changed successfully", Some user).

End AuthController.

(** ** The security configuration: the CSRF guard *)

Module Security.
Import Js.

Record Session : Type := {
  csrfToken : option string;
  userId : option string
}.

Record Body : Type := {
  _csrf : option string
}.

(** The parts of a request the guard looks at: [x_csrf_token] is the
    header [x-csrf-token]; [body] is [None] when no body was parsed. *)
Record Request : Type := {
  method : string;
  path : string;
  session : option Session;
  x_csrf_token : option string;
  body : option Body
}.

Inductive Outcome : Type :=
| Next : Outcome
| Respond : Response -> Outcome
| Throw : string -> Outcome.

(** [Buffer.from(s)]: the bytes of the string. *)
Definition Buffer_from (s : string) : list ascii := list_ascii_of_string s.

(** [crypto.timingSafeEqual] of Node: a RangeError when the two buffers
    differ in length; otherwise every byte pair is combined, whatever the
    earlier ones gave, and the buffers are equal when no bit differed. *)
Fixpoint diff_bits (a b : list ascii) (acc : N) : N :=
  match a, b with
  | x :: a', y :: b' =>
      diff_bits a' b' (N.lor acc (N.lxor (N_of_ascii x) (N_of_ascii y)))
  | _, _ => acc
  end.

Definition timingSafeEqual (a b : list ascii) : Completion bool :=
  if (length a =? length b)%nat
  then Normal (diff_bits a b 0 =? 0)%N
  else Throws "RangeError".

Definition safeMethods : list string := ["GET"; "HEAD"; "OPTIONS"].

Definition skipPaths : list string :=
  ["/api/auth/login";
   "/api/auth/register";
   "/api/auth/refresh";
   "/api/auth/google";
   "/api/auth/microsoft";
   "/api/auth/github";
   "/api/logs/siem";
   "/api/health"].

(** [list.includes(x)] *)
Definition includes (x : string) (l : list string) : bool :=
  existsb (String.eqb x) l.

(** [s.startsWith(p)] *)
Definition startsWith (s p : string) : bool := String.prefix p s.

(** [skipPaths.some((path) => p.startsWith(path))] *)
Definition onSkipPath (p : string) : bool :=
  existsb (fun path => startsWith p path) skipPaths.

(** [req.headers["x-csrf-token"] || req.body._csrf]: reading [_csrf] of an
    absent body is a TypeError. *)
Definition requestToken (req : Request) : Completion (option string) :=
  if truthy_str (x_csrf_token req) then Normal (x_csrf_token req)
  else match body req with
       | Some b => Normal (_csrf b)
       | None => Throws "TypeError"
       end.

Definition csrfProtection (req : Request) : Outcome :=
  (* Skip CSRF for safe methods *)
  if includes (method req) safeMethods then Next
  (* Skip CSRF for specific paths *)
  else if onSkipPath (path req) then Next
  else
    (* Check if session exists *)
    match session req with
    | None => Respond (json 403 "Forbidden" "Session required for CSRF protection")
    | Some sess =>
        match requestToken req with
        | Throws e => Throw e
        | Normal csrfToken' =>
            let sessionToken := csrfToken sess in
            if negb (truthy_str csrfToken') || negb (truthy_str sessionToken)
            then Respond (json 403 "Forbidden" "CSRF token required")
            else
              (* Use timing-safe comparison *)
              match timingSafeEqual (Buffer_from (of_opt csrfToken'))
                                    (Buffer_from (of_opt sessionToken)) with
              | Throws e => Throw e
              | Normal false => Respond (json 403 "Forbidden" "Invalid CSRF token")
              | Normal true => Next
              end
        end
    end.

(** [buf.toString("hex")]: two lower-case digits for each byte. *)
Definition hex_digit (n : N) : ascii :=
  if (n <? 10)%N then ascii_of_N (48 + n) else ascii_of_N (87 + n).

Fixpoint toHex (bs : list ascii) : string :=
  match bs with
  | b :: r =>
      let n := N_of_ascii b in
      String (hex_digit (n / 16)) (String (hex_digit (n mod 16)) (toHex r))
  | [] => EmptyString
  end.

(** [generateCsrfToken]: [random] stands for the bytes that
    [crypto.randomBytes(32)] draws.  The token is stored on the session
    and returned. *)
Definition generateCsrfToken (random : list ascii) (req : Request)
    : Completion (string * Request) :=
  match session req with
  | None => Throws "Error"
  | Some sess =>
      let token := toHex random in
      let sess := {| csrfToken := Some token; userId := userId sess |} in
      Normal (token,
              {| method := method req; path := path req; session := Some sess;
                 x_csrf_token := x_csrf_token req; body := body req |})
  end.

(** The request [req] sent with the header [x-csrf-token] set to [t]. *)
Definition with_header (t : option string) (req : Request) : Request :=
  {| method := method req; path := path req; session := session req;
     x_csrf_token := t; body := body req |}.

(** Reading a hexadecimal string back into bytes; it undoes [toHex]. *)
Definition unhex (c : ascii) : N :=
  let n := N_of_ascii c in
  if (n <? 58)%N then (n - 48)%N else (n - 87)%N.

Fixpoint fromHex (s : string) : list ascii :=
  match s with
  | String h (String l r) => ascii_of_N (16 * unhex h + unhex l) :: fromHex r
  | _ => []
  end.

(** The allow-list as the specification words it: login, registration,
    token refresh and the federated-login callbacks. *)
Definition entryPointPaths : list string :=
  ["/api/auth/login";
   "/api/auth/register";
   "/api/auth/refresh";
   "/api/auth/google";
   "/api/auth/microsoft";
   "/api/auth/github"].

Definition onEntryPointPath (p : string) : bool :=
  existsb (fun path => startsWith p path) entryPointPaths.

(** Requests for the worked examples: a state-changing request to a path
    off the list, on a session holding [stored], echoing [supplied]. *)
Definition post_grants (stored supplied : option string) : Request :=
  {| method := "POST"; path := "/api/grants";
     session := Some {| csrfToken := stored; userId := Some "u1" |};
     x_csrf_token := supplied; body := Some {| _csrf := None |} |}.

Definition post_siem : Request :=
  {| method := "POST"; path := "/api/logs/siem"; session := None;
     x_csrf_token := None; body := None |}.

End Security.


(** ** The authentication middleware *)

Module AuthMiddleware.
Import Js UserModel.

(** The claims of an access token, as [login] signs them. *)
Record Claims : Type := {
  id : string;
  claim_email : string;
  claim_roles : list string
}.

Record JsError : Type := {
  name : string;
  errorMessage : string
}.

(** The result of [jwt.verify(token, secret)]. *)
Inductive Verified : Type :=
| Decoded : Claims -> Verified
| VerifyError : JsError -> Verified.

(** The three ways a presented token can be bad, and the error the
    jsonwebtoken library throws for each. *)
Inductive TokenDefect : Type :=
| Malformed : TokenDefect
| BadSignature : TokenDefect
| Expired : TokenDefect.

Definition jwt_error (d : TokenDefect) : JsError :=
  match d with
  | Malformed => {| name := "JsonWebTokenError"; errorMessage := "jwt malformed" |}
  | BadSignature => {| name := "JsonWebTokenError"; errorMessage := "invalid signature" |}
  | Expired => {| name := "TokenExpiredError"; errorMessage := "jwt expired" |}
  end.

Inductive AuthOutcome : Type :=
| AuthRespond : Response -> AuthOutcome
| AuthNext : User -> AuthOutcome.

(** [authHeader.substring(7)] *)
Definition substring_from (n : nat) (s : string) : string :=
  String.substring n (String.length s - n) s.

(** The [catch] branch of [authenticate]. *)
Definition authenticate_catch (e : JsError) : Response :=
  if String.eqb (name e) "JsonWebTokenError"
  then json 401 "Unauthorized" "Invalid access token"
  else if String.eqb (name e) "TokenExpiredError"
  then json 401 "Unauthorized" "Access token has expired"
  else json 500 "Internal Server Error" "Authentication service error".

(** [authenticate]: [verify] is [jwt.verify], [db] the users collection by
    [_id] ([User.findById] is the lookup), [authorization] the header of
    that name.  On [AuthNext user] the request goes on with [req.user]
    set to the document read from the collection, from which
    [defineAbilityFor] computes [req.ability]. *)
Definition authenticate (env : Env) (verify : string -> option string -> Verified)
    (db : gmap string User) (now : Z) (authorization : option string)
    : AuthOutcome :=
  if negb (truthy_str authorization)
     || negb (Security.startsWith (of_opt authorization) "Bearer ")
  then AuthRespond (json 401 "Unauthorized" "Access token is required")
  else
    let token := substring_from 7 (of_opt authorization) in
    match verify token (JWT_SECRET env) with
    | VerifyError e => AuthRespond (authenticate_catch e)
    | Decoded decoded =>
        match db !! id decoded with
        | None => AuthRespond (json 401 "Unauthorized" "Invalid access token")
        | Some user =>
            if negb (isActive user)
            then AuthRespond (json 401 "Unauthorized" "Account is not active")
            else if truthy (isAccountLocked now user)
            then AuthRespond (json 423 "Account Locked" "Account is temporarily locked")
            else AuthNext user
        end
    end.

(** A stand-in for [jwt.verify] for the worked examples: one good token
    for the user "u1", and one token for each defect. *)
Definition toy_verify (token : string) (secret : option string) : Verified :=
  if String.eqb token "good"
  then Decoded {| id := "u1"; claim_email := "alice@example.org";
                  claim_roles := ["APPLICANT"] |}
  else if String.eqb token "expired" then VerifyError (jwt_error Expired)
  else if String.eqb token "forged" then VerifyError (jwt_error BadSignature)
  else VerifyError (jwt_error Malformed).

End AuthMiddleware.

(** ** The serialised form of a user: the schema's [toJSON] option *)

Module Serialisation.

(** A plain JavaScript object: its own properties in insertion order. *)
#[local] Unset Elimination Schemes.
Inductive JsVal : Type :=
| JNull : JsVal
| JBool : bool -> JsVal
| JNum : Z -> JsVal
| JStr : string -> JsVal
| JArr : list JsVal -> JsVal
| JObj : list (string * JsVal) -> JsVal.
#[local] Set Elimination Schemes.

Definition Obj : Type := list (string * JsVal).

(** [delete ret.k] *)
Definition delete_key (k : string) (ret : Obj) : Obj :=
  List.filter (fun p => negb (String.eqb (fst p) k)) ret.

(** The [transform] of the [toJSON] option, applied to the plain object
    [ret] made from the document. *)
Definition transform (ret : Obj) : Obj :=
  let ret := delete_key "passwordHash" ret in
  let ret := delete_key "passwordSalt" ret in
  let ret := delete_key "passwordHistory" ret in
  let ret := delete_key "twoFactorSecret" ret in
  let ret := delete_key "__v" ret in
  ret.

Definition secretFields : list string :=
  ["passwordHash"; "passwordSalt"; "passwordHistory"; "twoFactorSecret"].

(** Two objects that differ only in the fields [ks]: the same properties
    in the same order, except that a property named in [ks] may hold
    another value, or be present in one object alone. *)
Inductive differ_only_in (ks : list string) : Obj -> Obj -> Prop :=
| differ_nil : differ_only_in ks [] []
| differ_same k v o1 o2 :
    differ_only_in ks o1 o2 -> differ_only_in ks ((k, v) :: o1) ((k, v) :: o2)
| differ_left k v o1 o2 :
    k ∈ ks -> differ_only_in ks o1 o2 -> differ_only_in ks ((k, v) :: o1) o2
| differ_right k v o1 o2 :
    k ∈ ks -> differ_only_in ks o1 o2 -> differ_only_in ks o1 ((k, v) :: o2).

(** The properties [transform] deletes. *)
Definition deleted (k : string) : bool :=
  existsb (String.eqb k)
    ["passwordHash"; "passwordSalt"; "passwordHistory"; "twoFactorSecret"; "__v"].

(** A user document as a plain object, for the worked examples. *)
Definition alice_object (hash' : string) : Obj :=
  [("_id", JStr "u1"); ("email", JStr "alice@example.org");
   ("passwordHash", JStr hash'); ("passwordSalt", JStr "$2b$12$salt");
   ("roles", JArr [JStr "APPLICANT"]); ("isActive", JBool true);
   ("passwordHistory", JArr []); ("twoFactorSecret", JNull); ("__v", JNum 0)].

(** A stand-in for [JSON.stringify] for the worked examples: the same
    layout, without the escaping of characters inside strings. *)
Definition quoted (s : string) : string :=
  String (ascii_of_N 34) (s +:+ String (ascii_of_N 34) EmptyString).

Fixpoint stringify_plain (v : JsVal) : string :=
  match v with
  | JNull => "null"
  | JBool b => if b then "true" else "false"
  | JNum z => pretty z
  | JStr s => quoted s
  | JArr l => "[" +:+ String.concat "," (map stringify_plain l) +:+ "]"
  | JObj o =>
      "{" +:+ String.concat ","
                (map (fun p => let '(k, x) := p in
                               quoted k +:+ ":" +:+ stringify_plain x) o)
          +:+ "}"
  end.

End Serialisation.

(** ** The client's token refresh (single flight) *)

Module ClientRefresh.

(** How the promise of [performTokenRefresh()] settles. *)
Inductive Settled : Type :=
| Resolved : string -> Settled
| Rejected : string -> Settled.

(** The state of the module between two turns of the event loop:
    [refreshPromise] is the variable of that name (the promise it holds,
    by number), [performed] counts the calls of [performTokenRefresh]
    made so far (the call numbered [n] made promise [n]), [pending] lists
    the callers of [refreshToken] whose call has not completed, each with
    the promise its result hangs on, and [completed] the callers that got
    their result. *)
Record State : Type := {
  refreshPromise : option nat;
  performed : nat;
  pending : list (nat * nat);
  completed : list (nat * Settled)
}.

Definition init : State :=
  {| refreshPromise := None; performed := 0; pending := []; completed := [] |}.

Inductive Event : Type :=
| Call : nat -> Event
| Settle : nat -> Settled -> Event.

(** [refreshToken()] called by [caller], up to its first suspension: a
    promise found in the variable is returned as it is; otherwise
    [performTokenRefresh()] is called, its promise stored, and the caller
    suspended on it inside the [try]. *)
Definition refreshToken (caller : nat) (st : State) : State :=
  match refreshPromise st with
  | Some p =>
      {| refreshPromise := refreshPromise st; performed := performed st;
         pending := pending st ++ [(caller, p)]; completed := completed st |}
  | None =>
      let p := performed st in
      {| refreshPromise := Some p; performed := S (performed st);
         pending := pending st ++ [(caller, p)]; completed := completed st |}
  end.

Definition awaits (p : nat) (e : nat * nat) : bool := (snd e =? p)%nat.

(** Promise [p] settles with [o]: the caller suspended in the [try] goes
    through [finally], which clears the variable, and every caller whose
    result hangs on [p] gets [o]. *)
Definition settle (p : nat) (o : Settled) (st : State) : State :=
  if existsb (awaits p) (pending st) then
    {| refreshPromise := None; performed := performed st;
       pending := List.filter (fun e => negb (awaits p e)) (pending st);
       completed := completed st
                    ++ map (fun e => (fst e, o)) (List.filter (awaits p) (pending st)) |}
  else st.

Definition step (st : State) (ev : Event) : State :=
  match ev with
  | Call c => refreshToken c st
  | Settle p o => settle p o st
  end.

Definition run (evs : list Event) (st : State) : State :=
  fold_left step evs st.

End ClientRefresh.


(** ** The rest of the authentication middleware *)

Module AccountChecks.
Import Js UserModel AuthMiddleware.

(** [checkAccountStatus]: [req_user] is [req.user] as an earlier
    middleware left it; the document is read again by its [_id]. *)
Definition checkAccountStatus (db : gmap string User) (now : Z)
    (req_user : option User) : AuthOutcome :=
  match req_user with
  | None => AuthRespond (json 401 "Unauthorized" "Authentication required")
  | Some requester =>
      match db !! _id requester with
      | None => AuthRespond (json 401 "Unauthorized" "User not found")
      | Some user =>
          if negb (isActive user)
          then AuthRespond (json 401 "Unauthorized" "Account is not active")
          else if truthy (isAccountLocked now user)
          then AuthRespond (json 423 "Account Locked" "Account is temporarily locked")
          else AuthNext user
      end
  end.

(** What [optionalAuthenticate] does with a request: it goes on
    unauthenticated, or gets what [authenticate] gives. *)
Inductive OptionalOutcome : Type :=
| Anonymous : OptionalOutcome
| Authenticated : AuthOutcome -> OptionalOutcome.

(** [optionalAuthenticate]: [bound] tells whether the method runs on the
    middleware object.  Called detached, the way a method handed over as
    a handler is called, [this] is undefined in the strict code of a
    class body: reading [this.authenticate] throws a TypeError, which the
    [catch] turns into [next()]. *)
Definition optionalAuthenticate (bound : bool) (env : Env)
    (verify : string -> option string -> Verified) (db : gmap string User)
    (now : Z) (authorization : option string) : OptionalOutcome :=
  if negb (truthy_str authorization)
     || negb (Security.startsWith (of_opt authorization) "Bearer ")
  then Anonymous
  else if bound
  then Authenticated (authenticate env verify db now authorization)
  else Anonymous.

(** [requireSuperAdmin] *)
Definition requireSuperAdmin (req_user : option User) : Security.Outcome :=
  match req_user with
  | None =>
      Security.Respond (json 403 "Forbidden" "Super administrator access required")
  | Some user =>
      if negb (Security.includes "SUPER_ADMIN" (roles user))
      then Security.Respond
             (json 403 "Forbidden" "Super administrator access required")
      else Security.Next
  end.

(** [String.prototype.toUpperCase] on the ASCII letters. *)
Definition upper_ascii (c : ascii) : ascii :=
  let n := N_of_ascii c in
  if ((97 <=? n) && (n <=? 122))%N then ascii_of_N (n - 32) else c.

Fixpoint toUpperCase (s : string) : string :=
  match s with
  | String c r => String (upper_ascii c) (toUpperCase r)
  | EmptyString => EmptyString
  end.

(** [userSchema.methods.hasRole] *)
Definition hasRole (requiredRole : string) (this : User) : bool :=
  Security.includes (toUpperCase requiredRole) (roles this).

End AccountChecks.

(** ** The controller's token refresh *)

Module TokenRefresh.
Import Js UserModel AuthMiddleware.

(** What the handler does: it answers, it answers 200 with an access
    token signed over the given claims, or it hands an error on to
    [next]. *)
Inductive Handled : Type :=
| Sent : Response -> Handled
| Minted : Claims -> Handled
| Forwarded : JsError -> Handled.

(** [refreshToken]: [cookie] is [req.cookies.refresh_token]. *)
Definition refreshToken (env : Env) (verify : string -> option string -> Verified)
    (db : gmap string User) (cookie : option string) : Handled :=
  if negb (truthy_str cookie)
  then Sent (json 401 "Unauthorized" "Refresh token not provided")
  else
    (* Verify refresh token *)
    match verify (of_opt cookie) (JWT_REFRESH_SECRET env) with
    | VerifyError e =>
        if String.eqb (name e) "JsonWebTokenError"
           || String.eqb (name e) "TokenExpiredError"
        then Sent (json 401 "Unauthorized" "Invalid or expired refresh token")
        else Forwarded e
    | Decoded decoded =>
        match db !! id decoded with
        | None => Sent (json 401 "Unauthorized" "Invalid refresh token")
        | Some user =>
            if negb (isActive user)
            then Sent (json 401 "Unauthorized" "Invalid refresh token")
            else
              (* Generate new access token *)
              Minted {| id := _id user; claim_email := email user;
                        claim_roles := roles user |}
        end
    end.

End TokenRefresh.

(** ** The CSRF guard as the application mounts it *)

Module AppCsrf.
Import Security.

(** The middleware of the application around [csrfProtection]. *)
Definition csrfMiddleware (req : Request) : Outcome :=
  (* Skip CSRF for health checks and if session is not available *)
  if String.eqb (path req) "/health" || String.eqb (path req) "/api/health"
     || negb (bool_decide (is_Some (session req)))
  then Next
  else csrfProtection req.

End AppCsrf.

(** ** The Session model *)

Module SessionModel.

(** A document of the sessions collection; dates are in milliseconds. *)
Record SessionDoc : Type := {
  _id : string;
  session : string;
  expires : Z;
  userId : option string;
  ipAddress : option string;
  userAgent : option string;
  isActive : bool;
  lastAccessed : Z
}.

(** [deleteMany({ expires: { $lt: now } })]: the number of documents
    deleted, and the collection afterwards. *)
Definition cleanupExpiredSessions (now : Z) (coll : list SessionDoc)
    : nat * list SessionDoc :=
  (length (List.filter (fun s => expires s <? now) coll),
   List.filter (fun s => negb (expires s <? now)) coll).

(** The query of [getActiveSessionsForUser]. *)
Definition activeFor (uid : string) (now : Z) (s : SessionDoc) : bool :=
  bool_decide (userId s = Some uid) && isActive s && (expires s >? now).

(** [sort({ lastAccessed: -1 })]: most recently accessed first.  The
    database fixes no order among documents accessed at the same time;
    nothing below depends on the one the merge sort gives. *)
Definition moreRecent (a b : SessionDoc) : Prop := lastAccessed b <= lastAccessed a.

#[global] Instance moreRecent_dec : RelDecision moreRecent.
Proof. intros a b. unfold moreRecent. apply _. Defined.

Definition getActiveSessionsForUser (uid : string) (now : Z)
    (coll : list SessionDoc) : list SessionDoc :=
  merge_sort moreRecent (List.filter (activeFor uid now) coll).

(** [updateMany({ userId, isActive: true }, { isActive: false })]: the
    number of documents modified, and the collection afterwards. *)
Definition ownedActive (uid : string) (s : SessionDoc) : bool :=
  bool_decide (userId s = Some uid) && isActive s.

Definition deactivate (s : SessionDoc) : SessionDoc :=
  {| _id := _id s; session := session s; expires := expires s;
     userId := userId s; ipAddress := ipAddress s; userAgent := userAgent s;
     isActive := false; lastAccessed := lastAccessed s |}.

Definition invalidateUserSessions (uid : string) (coll : list SessionDoc)
    : nat * list SessionDoc :=
  (length (List.filter (ownedActive uid) coll),
   map (fun s => if ownedActive uid s then deactivate s else s) coll).

(** Sessions for the worked examples. *)
Definition session_of (sid uid : string) (exp accessed : Z) (active : bool)
    : SessionDoc :=
  {| _id := sid; session := "{}"; expires := exp; userId := Some uid;
     ipAddress := None; userAgent := None; isActive := active;
     lastAccessed := accessed |}.

End SessionModel.


(** ** The input sanitizers of the security configuration *)

Module Sanitizers.
Import Js Serialisation.

(** [typeof v === "object" && v !== null] *)
Definition isObject (v : JsVal) : bool :=
  match v with
  | JArr _ | JObj _ => true
  | _ => false
  end.

Fixpoint has_char (c : ascii) (s : string) : bool :=
  match s with
  | String c' r => Ascii.eqb c' c || has_char c r
  | EmptyString => false
  end.

(** [key.startsWith('$') || key.includes('.')] *)
Definition dangerousKey (key : string) : bool :=
  Security.startsWith key "$" || has_char "." key.

(** [key.replace(/[$\.]/g, '_')] *)
Fixpoint safeKeyOf (key : string) : string :=
  match key with
  | String c r =>
      String (if Ascii.eqb c "$" || Ascii.eqb c "." then "_"%char else c)
             (safeKeyOf r)
  | EmptyString => EmptyString
  end.

(** The own property [k] of a plain object. *)
Fixpoint get_own (k : string) (o : Obj) : option JsVal :=
  match o with
  | [] => None
  | (k', v) :: r => if String.eqb k' k then Some v else get_own k r
  end.

Fixpoint set_own (k : string) (v : JsVal) (o : Obj) : Obj :=
  match o with
  | [] => [(k, v)]
  | (k', v') :: r =>
      if String.eqb k' k then (k', v) :: r else (k', v') :: set_own k v r
  end.

(** [o[k] = v] on an object made with a literal: the property is
    replaced where it stands or added at the end.  Assigning to
    [__proto__] goes to the setter of the prototype and makes no own
    property.  (The list keeps the order of insertion; a JavaScript
    engine enumerates keys that are array indices first.) *)
Definition assign (k : string) (v : JsVal) (o : Obj) : Obj :=
  if String.eqb k "__proto__" then o else set_own k v o.

(** [sanitizeMongoQuery] of [inputSanitization]: the properties of an
    object are taken in the order of the list; an array is rebuilt
    element by element, its indices never being dangerous keys. *)
Fixpoint sanitizeMongoQuery (obj : JsVal) : JsVal :=
  match obj with
  | JObj o =>
      JObj (fold_left
              (fun sanitized p =>
                 let '(key, x) := p in
                 if dangerousKey key
                 then assign (safeKeyOf key) x sanitized
                 else if isObject x
                 then assign key (sanitizeMongoQuery x) sanitized
                 else assign key x sanitized)
              o [])
  | JArr l =>
      JArr (map (fun x => if isObject x then sanitizeMongoQuery x else x) l)
  | _ => obj
  end.

(** [sanitizeObject] of [xssProtection]; [sanitizeHtml] is the library
    function with the options of the call.  [typeof null] is "object",
    and the call on [null] gives [null] back. *)
Fixpoint sanitizeObject (sanitizeHtml : string -> string) (obj : JsVal) : JsVal :=
  match obj with
  | JObj o =>
      JObj (fold_left
              (fun sanitized p =>
                 let '(key, x) := p in
                 match x with
                 | JStr s => assign key (JStr (sanitizeHtml s)) sanitized
                 | JArr _ | JObj _ | JNull =>
                     assign key (sanitizeObject sanitizeHtml x) sanitized
                 | _ => assign key x sanitized
                 end)
              o [])
  | JArr l =>
      JArr (map (fun x =>
                   match x with
                   | JStr s => JStr (sanitizeHtml s)
                   | JArr _ | JObj _ | JNull => sanitizeObject sanitizeHtml x
                   | _ => x
                   end) l)
  | _ => obj
  end.

(** What the loop of [sanitizeObject] stores for a property that holds
    [x]. *)
Definition cleaned (sanitizeHtml : string -> string) (x : JsVal) : JsVal :=
  match x with
  | JStr s => JStr (sanitizeHtml s)
  | JArr _ | JObj _ | JNull => sanitizeObject sanitizeHtml x
  | _ => x
  end.

(** Every string held as a value, at any depth, satisfies [P]. *)
Fixpoint all_strings (P : string -> Prop) (v : JsVal) : Prop :=
  match v with
  | JStr s => P s
  | JArr l => fold_right (fun x rest => all_strings P x /\ rest) True l
  | JObj o => fold_right (fun p rest => all_strings P (snd p) /\ rest) True o
  | _ => True
  end.

(** An object as [JSON.parse] makes them, short of one case: no key
    twice in an object, and no key [__proto__], at any depth. *)
Fixpoint plain (v : JsVal) : Prop :=
  match v with
  | JArr l => fold_right (fun x rest => plain x /\ rest) True l
  | JObj o =>
      NoDup (map fst o) /\ ("__proto__" ∉ map fst o)
      /\ fold_right (fun p rest => plain (snd p) /\ rest) True o
  | _ => True
  end.

(** No key at any depth is a dangerous one. *)
Fixpoint harmless (v : JsVal) : Prop :=
  match v with
  | JArr l => fold_right (fun x rest => harmless x /\ rest) True l
  | JObj o =>
      fold_right (fun p rest => dangerousKey (fst p) = false
                                /\ harmless (snd p) /\ rest) True o
  | _ => True
  end.

(** A stand-in for [sanitizeHtml] for the worked examples: it drops the
    angle brackets. *)
Fixpoint drop_angle_brackets (s : string) : string :=
  match s with
  | String c r =>
      if Ascii.eqb c "<" || Ascii.eqb c ">" then drop_angle_brackets r
      else String c (drop_angle_brackets r)
  | EmptyString => EmptyString
  end.

End Sanitizers.

(** ** The redaction of log entries *)

Module LogRedaction.
Import Js Serialisation.

Definition sensitiveFields : list string :=
  ["password"; "confirmpassword"; "currentpassword";
   "token"; "refreshtoken"; "accesstoken";
   "secret"; "apikey"; "apisecret";
   "creditcard"; "ssn"; "socialsecuritynumber"].

(** [sensitiveFields.includes(key.toLowerCase())] (letters outside ASCII
    are left as they are). *)
Definition sensitive (key : string) : bool :=
  Security.includes (AuthController.toLowerCase key) sensitiveFields.

(** The keys ["0"], ["1"], ... that spreading an array of [n] elements
    into an object literal gives. *)
Definition indexKeys (n : nat) : list string := map pretty (seq 0 n).

(** [redactObject]: the copy [{ ...obj }] has the properties of an
    object in their order, and for an array one property for each
    index; [typeof null] is "object", and the call on [null] gives
    [null] back. *)
Fixpoint redactObject (obj : JsVal) : JsVal :=
  match obj with
  | JObj o =>
      JObj (map (fun p =>
                   let '(key, x) := p in
                   (key,
                    if sensitive key then JStr "[REDACTED]"
                    else match x with
                         | JArr _ | JObj _ | JNull => redactObject x
                         | _ => x
                         end)) o)
  | JArr l =>
      JObj (combine (indexKeys (length l))
              (map (fun x =>
                      match x with
                      | JArr _ | JObj _ | JNull => redactObject x
                      | _ => x
                      end) l))
  | _ => obj
  end.

(** The string starts with a decimal digit. *)
Definition digit_head (s : string) : Prop :=
  match s with
  | String c _ => ((48 <=? N_of_ascii c) && (N_of_ascii c <=? 57))%N = true
  | EmptyString => False
  end.

(** What [redactObject] leaves under a key that is not sensitive. *)
Definition redactedValue (x : JsVal) : JsVal :=
  match x with
  | JArr _ | JObj _ | JNull => redactObject x
  | _ => x
  end.

(** At every depth, a property with a sensitive key holds the redaction
    mark. *)
Fixpoint redacted (v : JsVal) : Prop :=
  match v with
  | JArr l => fold_right (fun x rest => redacted x /\ rest) True l
  | JObj o =>
      fold_right (fun p rest =>
                    (sensitive (fst p) = true -> snd p = JStr "[REDACTED]")
                    /\ redacted (snd p) /\ rest) True o
  | _ => True
  end.

End LogRedaction.

(** ** Content-type validation *)

Module ContentType.
Import Js Security.

(** [s.includes(t)] *)
Fixpoint str_includes (s t : string) : bool :=
  String.prefix t s
  || match s with
     | String _ r => str_includes r t
     | EmptyString => false
     end.

(** [validateContentType(allowedTypes)] on a request with the given
    method and [content-type] header. *)
Definition validateContentType (allowedTypes : list string) (method : string)
    (contentType : option string) : Outcome :=
  if includes method safeMethods then Next
  else if negb (truthy_str contentType)
  then Respond (json 415 "Unsupported Media Type" "Content-Type header is required")
  else if existsb (fun type => str_includes (of_opt contentType) type) allowedTypes
  then Next
  else Respond (json 415 "Unsupported Media Type"
                  ("Content-Type " +:+ of_opt contentType
                   +:+ " is not supported. Allowed types: "
                   +:+ String.concat ", " allowedTypes)).

End ContentType.


(** * Properties *)

(** Case analysis on every conditional left in the goal. *)
Ltac case_ifs :=
  repeat match goal with
         | |- context [if ?b then _ else _] => destruct b
         end.

(** ** Lockout *)

Module LockoutFacts.
Import Js UserModel AuthController.

Lemma default_limits :
  maxAttempts default_env = Fin 5 /\ lockTime default_env = Fin 900000.
Proof. split; reflexivity. Qed.

Section Counters.
Context (env : Env) (bc : Bcrypt).

(** The pre-save hook leaves the lockout fields alone. *)
Lemma pre_save_lockout now u :
  let u' := pre_save env bc now u in
  isLocked u' = isLocked u /\ lockUntil u' = lockUntil u
  /\ lockReason u' = lockReason u
  /\ failedLoginAttempts u' = failedLoginAttempts u
  /\ loginAttempts u' = loginAttempts u.
Proof.
  unfold pre_save.
  destruct (isModified "firstName" u || isModified "lastName" u);
    cbn [password set_fullName];
    match goal with
    | |- context [truthy_str ?p && isModified "password" ?v] =>
        destruct (truthy_str p && isModified "password" v)
    end;
    cbn; repeat split; case_ifs; reflexivity.
Qed.

Lemma save_lockout now u :
  let u' := save env bc now u in
  isLocked u' = isLocked u /\ lockUntil u' = lockUntil u
  /\ lockReason u' = lockReason u
  /\ failedLoginAttempts u' = failedLoginAttempts u
  /\ loginAttempts u' = loginAttempts u.
Proof.
  unfold save. cbn [isLocked lockUntil lockReason failedLoginAttempts
                    loginAttempts set_modifiedPaths].
  apply pre_save_lockout.
Qed.

(** What one failed attempt does to the lockout fields. *)
Lemma increment_fields now u :
  let u' := snd (incrementLoginAttempts env bc now u) in
  let crossed := num_ge (Fin (failedLoginAttempts u + 1)) (maxAttempts env) in
  failedLoginAttempts u' = failedLoginAttempts u + 1
  /\ isLocked u' = (if crossed then true else isLocked u)
  /\ lockUntil u' = (if crossed
                     then Some (newDate (num_add (Fin now) (lockTime env)))
                     else lockUntil u).
Proof.
  unfold incrementLoginAttempts. cbn [snd].
  match goal with
  | |- context [save env bc now ?v] =>
      destruct (save_lockout now v) as (Hl & Hu & _ & Hf & _)
  end.
  cbn zeta in *. rewrite Hl, Hu, Hf. cbn.
  destruct (num_ge (Fin (failedLoginAttempts u + 1)) (maxAttempts env));
    cbn; auto.
Qed.

Lemma failedAttempts_count nows : forall u,
  failedLoginAttempts (failedAttempts env bc nows u)
  = failedLoginAttempts u + Z.of_nat (length nows).
Proof.
  induction nows as [|now later IH]; intros u; cbn [failedAttempts length].
  - lia.
  - rewrite IH.
    destruct (increment_fields now u) as (Hf & _). cbn zeta in Hf.
    rewrite Hf. lia.
Qed.

(** Below the threshold a run of failures leaves the lock as it was. *)
Lemma failedAttempts_below t nows : forall u,
  maxAttempts env = Fin t ->
  failedLoginAttempts u + Z.of_nat (length nows) < t ->
  isLocked (failedAttempts env bc nows u) = isLocked u
  /\ lockUntil (failedAttempts env bc nows u) = lockUntil u.
Proof.
  induction nows as [|now later IH]; intros u Ht Hlt;
    cbn [failedAttempts length] in *.
  - auto.
  - destruct (increment_fields now u) as (Hf & Hl & Hu).
    cbn zeta in *.
    assert (Hno : num_ge (Fin (failedLoginAttempts u + 1)) (maxAttempts env) = false).
    { rewrite Ht. unfold num_ge. rewrite Z.geb_leb. apply Z.leb_gt. lia. }
    rewrite Hno in Hl, Hu.
    destruct (IH (snd (incrementLoginAttempts env bc now u))) as (IH1 & IH2);
      [assumption | lia |].
    rewrite IH1, IH2. auto.
Qed.

End Counters.

(** How [login] treats a wrong password on an account that is active and
    not locked: one call of [incrementLoginAttempts], and the generic 401. *)
Lemma login_wrong_password env bc now findOne body u :
  truthy_str (body_email body) = true ->
  truthy_str (body_password body) = true ->
  findOne (toLowerCase (of_opt (body_email body))) = Some u ->
  truthy (isAccountLocked now u) = false ->
  isActive u = true ->
  comparePassword bc (body_password body) u = false ->
  login env bc now findOne body
  = (json 401 "Unauthorized" "Invalid email or password",
     Some (snd (incrementLoginAttempts env bc now u))).
Proof.
  intros He Hp Hfind Hlock Hact Hcmp. unfold login.
  rewrite He, Hp, Hfind, Hlock, Hact, Hcmp. reflexivity.
Qed.

(** C3 (as amended).  With a threshold [t >= 1] and a lock duration [d],
    an account that starts unlocked with no failed attempt is still
    unlocked after [t - 1] consecutive failed attempts, and the next
    failure, the [t]-th, locks it: [isLocked] becomes true and
    [lockUntil] is the clock reading of that attempt plus [d]. *)
Theorem lockout_at_threshold env bc (t d : Z) (u : User) (nows : list Z) (now : Z) :
  maxAttempts env = Fin t ->
  lockTime env = Fin d ->
  1 <= t ->
  - maxTime <= now + d <= maxTime ->
  isLocked u = false ->
  failedLoginAttempts u = 0 ->
  Z.of_nat (length nows) = t - 1 ->
  isLocked (failedAttempts env bc nows u) = false
  /\ truthy (isAccountLocked now (failedAttempts env bc nows u)) = false
  /\ isLocked (snd (incrementLoginAttempts env bc now
                      (failedAttempts env bc nows u))) = true
  /\ lockUntil (snd (incrementLoginAttempts env bc now
                       (failedAttempts env bc nows u))) = Some (Fin (now + d))
  /\ failedLoginAttempts (snd (incrementLoginAttempts env bc now
                                 (failedAttempts env bc nows u))) = t.
Proof.
  intros Ht Hd Hpos Hrange Hunl Hzero Hlen.
  destruct (failedAttempts_below env bc t nows u Ht) as (Hl & _); [lia|].
  pose proof (failedAttempts_count env bc nows u) as Hc.
  destruct (increment_fields env bc now (failedAttempts env bc nows u))
    as (Hf & Hl' & Hu').
  cbn zeta in *.
  assert (Hcross : num_ge (Fin (failedLoginAttempts (failedAttempts env bc nows u) + 1))
                          (maxAttempts env) = true).
  { rewrite Ht, Hc. unfold num_ge. rewrite Z.geb_leb. apply Z.leb_le. lia. }
  rewrite Hcross in Hl', Hu'.
  repeat split.
  - congruence.
  - unfold isAccountLocked. rewrite Hl, Hunl. reflexivity.
  - assumption.
  - rewrite Hu', Hd. unfold num_add, newDate.
    destruct Hrange as [Hlo Hhi].
    apply Z.leb_le in Hlo, Hhi. rewrite Hlo, Hhi. reflexivity.
  - rewrite Hf, Hc. lia.
Qed.

Lemma lockout_at_threshold_witness :
  isLocked (failedAttempts default_env toy_bcrypt [1000; 2000; 3000; 4000] alice) = false
  /\ truthy (isAccountLocked 5000
               (failedAttempts default_env toy_bcrypt [1000; 2000; 3000; 4000] alice)) = false
  /\ isLocked (snd (incrementLoginAttempts default_env toy_bcrypt 5000
                      (failedAttempts default_env toy_bcrypt
                         [1000; 2000; 3000; 4000] alice))) = true
  /\ lockUntil (snd (incrementLoginAttempts default_env toy_bcrypt 5000
                       (failedAttempts default_env toy_bcrypt
                          [1000; 2000; 3000; 4000] alice))) = Some (Fin (5000 + 900000))
  /\ failedLoginAttempts (snd (incrementLoginAttempts default_env toy_bcrypt 5000
                                 (failedAttempts default_env toy_bcrypt
                                    [1000; 2000; 3000; 4000] alice))) = 5.
Proof.
  apply (lockout_at_threshold default_env toy_bcrypt 5 900000 alice
           [1000; 2000; 3000; 4000] 5000);
    first [reflexivity | unfold maxTime; lia].
Defined.

(** C3 as it is worded fails: with the default threshold 5, the failure
    numbered N = threshold - 1 = 4 leaves the account unlocked; it is the
    fifth that locks. *)
Lemma fourth_failure_does_not_lock :
  maxAttempts default_env = Fin 5
  /\ isLocked (snd (incrementLoginAttempts default_env toy_bcrypt 4000
                      (failedAttempts default_env toy_bcrypt
                         [1000; 2000; 3000] alice))) = false
  /\ isLocked (snd (incrementLoginAttempts default_env toy_bcrypt 5000
                      (failedAttempts default_env toy_bcrypt
                         [1000; 2000; 3000; 4000] alice))) = true.
Proof. repeat split; vm_compute; reflexivity. Qed.

(** A [login] on an account whose lock has run out is not answered 423,
    whatever [isLocked] still says. *)
Lemma login_after_lock_expiry env bc now findOne body u t :
  findOne (toLowerCase (of_opt (body_email body))) = Some u ->
  lockUntil u = Some (Fin t) ->
  t < now ->
  status (fst (login env bc now findOne body)) <> 423.
Proof.
  intros Hfind Hu Hpast. unfold login. rewrite Hfind.
  assert (Hnot : truthy (isAccountLocked now u) = false).
  { unfold isAccountLocked. rewrite Hu.
    destruct (isLocked u); [|reflexivity].
    unfold num_gt. cbn. rewrite Z.gtb_ltb. apply Z.ltb_ge. lia. }
  rewrite Hnot. case_ifs; cbn; discriminate.
Qed.

(** C4.  When [lockUntil] lies in the past, the read of the lock status
    finds the account not locked, whatever [isLocked] still says, and
    answers as it does for the same account with its lock fields
    cleared. *)
Theorem lazy_unlock (u : User) (now t : Z) :
  lockUntil u = Some (Fin t) ->
  t < now ->
  truthy (isAccountLocked now u) = false
  /\ truthy (isAccountLocked now u)
     = truthy (isAccountLocked now
                 (set_lockReason None (set_lockUntil None (set_isLocked false u)))).
Proof.
  intros Hu Hpast.
  assert (H : truthy (isAccountLocked now u) = false).
  { unfold isAccountLocked. rewrite Hu.
    destruct (isLocked u); [|reflexivity].
    unfold num_gt. cbn. rewrite Z.gtb_ltb. apply Z.ltb_ge. lia. }
  split; [exact H|]. rewrite H. reflexivity.
Qed.

Lemma lazy_unlock_witness :
  truthy (isAccountLocked 2000
            (set_lockUntil (Some (Fin 1000)) (set_isLocked true alice))) = false
  /\ truthy (isAccountLocked 2000
               (set_lockUntil (Some (Fin 1000)) (set_isLocked true alice)))
     = truthy (isAccountLocked 2000
                 (set_lockReason None (set_lockUntil None (set_isLocked false
                    (set_lockUntil (Some (Fin 1000)) (set_isLocked true alice)))))).
Proof.
  apply (lazy_unlock (set_lockUntil (Some (Fin 1000)) (set_isLocked true alice))
           2000 1000); [reflexivity | lia].
Defined.

(** C5.  [resetLoginAttempts], which [login] calls once the password has
    been verified, leaves [failedLoginAttempts] at 0 and the lock fields
    cleared whatever the state of the user was; and every [login] that
    answers 200 has saved the user in that state. *)
Theorem successful_login_resets env bc now :
  (forall u : User,
     failedLoginAttempts (resetLoginAttempts env bc now u) = 0
     /\ isLocked (resetLoginAttempts env bc now u) = false
     /\ lockUntil (resetLoginAttempts env bc now u) = None
     /\ lockReason (resetLoginAttempts env bc now u) = None)
  /\ (forall findOne body r saved,
        login env bc now findOne body = (r, saved) ->
        status r = 200 ->
        exists u', saved = Some u'
                   /\ failedLoginAttempts u' = 0 /\ isLocked u' = false
                   /\ lockUntil u' = None /\ lockReason u' = None).
Proof.
  assert (Hreset : forall u : User,
     failedLoginAttempts (resetLoginAttempts env bc now u) = 0
     /\ isLocked (resetLoginAttempts env bc now u) = false
     /\ lockUntil (resetLoginAttempts env bc now u) = None
     /\ lockReason (resetLoginAttempts env bc now u) = None).
  { intros u. unfold resetLoginAttempts.
    match goal with
    | |- context [save env bc now ?v] =>
        destruct (save_lockout env bc now v) as (Hl & Hu & Hr & Hf & _)
    end.
    cbn zeta in *. rewrite Hl, Hu, Hr, Hf. repeat split. }
  split; [exact Hreset|].
  intros findOne body r saved Hlogin Hstatus. unfold login in Hlogin.
  repeat match type of Hlogin with
         | (if ?b then _ else _) = _ => destruct b
         | match ?o with _ => _ end = _ => destruct o
         end;
    inversion Hlogin; subst; cbn in Hstatus; try discriminate.
  eexists; split; [reflexivity|]. apply Hreset.
Qed.

Lemma successful_login_resets_witness :
  exists u', snd (login default_env toy_bcrypt 7000
                    (fun _ => Some (set_failedLoginAttempts 3 alice))
                    {| body_email := Some "Alice@Example.org";
                       body_password := Some "correct horse" |}) = Some u'
             /\ failedLoginAttempts u' = 0 /\ isLocked u' = false
             /\ lockUntil u' = None /\ lockReason u' = None.
Proof.
  apply (proj2 (successful_login_resets default_env toy_bcrypt 7000)
           (fun _ => Some (set_failedLoginAttempts 3 alice))
           {| body_email := Some "Alice@Example.org";
              body_password := Some "correct horse" |}
           (ok200 "Login successful")).
  - vm_compute. reflexivity.
  - reflexivity.
Defined.

End LockoutFacts.

(** ** Password history *)

Module PasswordFacts.
Import Js UserModel AuthController.

(** The history after the pre-save hook saw a changed password. *)
Lemma pre_save_history env bc now u :
  truthy_str (password u) = true ->
  isModified "password" u = true ->
  passwordHistory (pre_save env bc now u)
  = ((if (5 <=? length (passwordHistory u))%nat
      then tail (passwordHistory u) else passwordHistory u)
     ++ (if truthy_str (passwordHash u) then [of_opt (passwordHash u)] else []))%list.
Proof.
  intros Hpw Hmod. unfold pre_save, isModified in *.
  destruct (bool_decide ("firstName" ∈ modifiedPaths u)
            || bool_decide ("lastName" ∈ modifiedPaths u));
    cbn [password set_fullName modifiedPaths]; rewrite Hpw, Hmod;
    cbn [andb];
    destruct (5 <=? length (passwordHistory u))%nat eqn:Hlen;
    cbn [set_fullName passwordHistory]; rewrite ?Hlen;
    destruct (truthy_str (passwordHash u)) eqn:Hh;
    cbn; rewrite ?Hh; cbn; rewrite ?app_nil_r; reflexivity.
Qed.

(** Without a changed password the hook leaves the history as it is. *)
Lemma pre_save_history_unchanged env bc now u :
  truthy_str (password u) && isModified "password" u = false ->
  passwordHistory (pre_save env bc now u) = passwordHistory u.
Proof.
  intros Hno. unfold pre_save, isModified in *.
  destruct (bool_decide ("firstName" ∈ modifiedPaths u)
            || bool_decide ("lastName" ∈ modifiedPaths u));
    cbn [password set_fullName modifiedPaths]; rewrite Hno; reflexivity.
Qed.

(** The bound on the history is kept by the hook. *)
Lemma pre_save_history_length env bc now u :
  (length (passwordHistory u) <= 5)%nat ->
  (length (passwordHistory (pre_save env bc now u)) <= 5)%nat.
Proof.
  intros Hbound.
  destruct (truthy_str (password u) && isModified "password" u) eqn:Hchg.
  - apply andb_prop in Hchg as [Hpw Hmod].
    rewrite pre_save_history by assumption.
    rewrite length_app.
    destruct (5 <=? length (passwordHistory u))%nat eqn:Hlen.
    + apply Nat.leb_le in Hlen.
      assert (Hfive : length (passwordHistory u) = 5%nat) by lia.
      destruct (passwordHistory u) as [|oldest rest]; [discriminate|].
      cbn [tail length] in *.
      destruct (truthy_str (passwordHash u)); cbn [length]; lia.
    + apply Nat.leb_gt in Hlen.
      destruct (truthy_str (passwordHash u)); cbn [length]; lia.
  - rewrite pre_save_history_unchanged by assumption. exact Hbound.
Qed.



(** The same through the controller: a password change that is accepted
    keeps the bound. *)
Lemma changePassword_history_bounded env bc now u cur new r u' :
  (length (passwordHistory u) <= 5)%nat ->
  changePassword env bc now u cur new = (r, Some u') ->
  (length (passwordHistory u') <= 5)%nat.
Proof.
  intros Hbound Hcp. unfold changePassword in Hcp.
  destruct (negb (comparePassword bc cur u)); [discriminate|].
  destruct (isPasswordUsedBefore bc new u); [discriminate|].
  inversion Hcp; subst. unfold save. cbn [passwordHistory set_modifiedPaths].
  apply pre_save_history_length. exact Hbound.
Qed.

End PasswordFacts.

(** ** The CSRF guard *)

Module CsrfFacts.
Import Js Security.

Lemma N_of_ascii_inj a b : N_of_ascii a = N_of_ascii b -> a = b.
Proof.
  intros H. rewrite <- (ascii_N_embedding a), <- (ascii_N_embedding b).
  now rewrite H.
Qed.

(** The accumulator of the comparison ends at zero exactly when it
    started at zero and the two buffers hold the same bytes. *)
Lemma diff_bits_zero : forall a b acc,
  length a = length b ->
  diff_bits a b acc = 0%N <-> acc = 0%N /\ a = b.
Proof.
  induction a as [|x a IH]; intros [|y b] acc Hlen; cbn in *;
    try discriminate.
  - tauto.
  - injection Hlen as Hlen. rewrite (IH b _ Hlen), N.lor_eq_0_iff, N.lxor_eq_0_iff.
    split.
    + intros [[Hacc Hxy] Hab]. apply N_of_ascii_inj in Hxy. subst. auto.
    + intros [Hacc Heq]. injection Heq as -> ->. auto.
Qed.

Lemma timingSafeEqual_same_length a b :
  length a = length b ->
  timingSafeEqual a b = Normal (bool_decide (a = b)).
Proof.
  intros Hlen. unfold timingSafeEqual.
  rewrite (proj2 (Nat.eqb_eq _ _) Hlen). f_equal.
  destruct (diff_bits a b 0 =? 0)%N eqn:E.
  - apply N.eqb_eq, diff_bits_zero in E as [_ ->]; [|assumption].
    now rewrite bool_decide_eq_true_2.
  - apply N.eqb_neq in E. rewrite bool_decide_eq_false_2; [reflexivity|].
    intros ->. apply E, diff_bits_zero; auto.
Qed.

Lemma timingSafeEqual_length_mismatch a b :
  length a <> length b -> timingSafeEqual a b = Throws "RangeError".
Proof.
  intros Hlen. unfold timingSafeEqual.
  now rewrite (proj2 (Nat.eqb_neq _ _) Hlen).
Qed.

Lemma Buffer_from_length s : length (Buffer_from s) = String.length s.
Proof.
  unfold Buffer_from. induction s as [|c s IH]; cbn; [reflexivity | now f_equal].
Qed.

Lemma Buffer_from_inj s t : Buffer_from s = Buffer_from t -> s = t.
Proof.
  intros H. unfold Buffer_from in H.
  rewrite <- (string_of_list_ascii_of_string s),
          <- (string_of_list_ascii_of_string t).
  now rewrite H.
Qed.

Lemma fromHex_toHex bs : fromHex (toHex bs) = bs.
Proof.
  induction bs as [|b bs IH]; [reflexivity|].
  cbn [toHex fromHex]. rewrite IH. f_equal.
  destruct b as [[] [] [] [] [] [] [] []]; reflexivity.
Qed.

Lemma toHex_inj a b : toHex a = toHex b -> a = b.
Proof.
  intros H. rewrite <- (fromHex_toHex a), <- (fromHex_toHex b). now rewrite H.
Qed.

Lemma toHex_length bs : String.length (toHex bs) = (2 * length bs)%nat.
Proof. induction bs as [|b bs IH]; cbn [toHex String.length length]; lia. Qed.

Lemma truthy_str_Some s : truthy_str (Some s) = true <-> s <> "".
Proof. destruct s; cbn; split; intros; congruence. Qed.

Lemma csrf_skip req :
  includes (method req) safeMethods = true
  \/ onSkipPath (path req) = true ->
  csrfProtection req = Next.
Proof.
  intros [H|H]; unfold csrfProtection; rewrite H; [reflexivity|].
  now destruct (includes (method req) safeMethods).
Qed.

Lemma csrf_no_session req :
  includes (method req) safeMethods = false ->
  onSkipPath (path req) = false ->
  session req = None ->
  csrfProtection req
  = Respond (json 403 "Forbidden" "Session required for CSRF protection").
Proof.
  intros Hm Hp Hs. unfold csrfProtection. now rewrite Hm, Hp, Hs.
Qed.

Lemma csrf_missing_token req sess supplied :
  includes (method req) safeMethods = false ->
  onSkipPath (path req) = false ->
  session req = Some sess ->
  requestToken req = Normal supplied ->
  truthy_str supplied = false \/ truthy_str (csrfToken sess) = false ->
  csrfProtection req = Respond (json 403 "Forbidden" "CSRF token required").
Proof.
  intros Hm Hp Hs Ht Hfalsy. unfold csrfProtection. rewrite Hm, Hp, Hs, Ht.
  destruct Hfalsy as [H|H]; rewrite H; [reflexivity|].
  now rewrite orb_true_r.
Qed.

(** The comparison itself, once both tokens are there. *)
Lemma csrf_compared req sess (supplied stored : string) :
  includes (method req) safeMethods = false ->
  onSkipPath (path req) = false ->
  session req = Some sess ->
  requestToken req = Normal (Some supplied) ->
  csrfToken sess = Some stored ->
  supplied <> "" -> stored <> "" ->
  csrfProtection req
  = if (String.length supplied =? String.length stored)%nat
    then if bool_decide (supplied = stored) then Next
         else Respond (json 403 "Forbidden" "Invalid CSRF token")
    else Throw "RangeError".
Proof.
  intros Hm Hp Hs Ht Hst Hne1 Hne2. unfold csrfProtection.
  rewrite Hm, Hp, Hs, Ht, Hst.
  rewrite (proj2 (truthy_str_Some supplied) Hne1),
          (proj2 (truthy_str_Some stored) Hne2).
  cbn [negb orb of_opt].
  destruct (String.length supplied =? String.length stored)%nat eqn:Hlen.
  - apply Nat.eqb_eq in Hlen.
    rewrite timingSafeEqual_same_length
      by now rewrite !Buffer_from_length.
    destruct (bool_decide_reflect (supplied = stored)) as [->|Hdiff].
    + now rewrite bool_decide_eq_true_2.
    + rewrite bool_decide_eq_false_2; [reflexivity|].
      intros H. now apply Hdiff, Buffer_from_inj.
  - apply Nat.eqb_neq in Hlen.
    rewrite timingSafeEqual_length_mismatch
      by now rewrite !Buffer_from_length.
    reflexivity.
Qed.

Lemma csrf_validated req supplied :
  includes (method req) safeMethods = false ->
  onSkipPath (path req) = false ->
  requestToken req = Normal supplied ->
  (forall s, session req = Some s ->
             truthy_str supplied = true -> truthy_str (csrfToken s) = true ->
             String.length (of_opt supplied) = String.length (of_opt (csrfToken s))) ->
  ((exists s, session req = Some s /\ truthy_str supplied = true
              /\ supplied = csrfToken s) ->
   csrfProtection req = Next)
  /\ (~ (exists s, session req = Some s /\ truthy_str supplied = true
                   /\ supplied = csrfToken s) ->
      exists msg, csrfProtection req = Respond (json 403 "Forbidden" msg)).
Proof.
  intros Hm Hp Ht Hlen.
  destruct (session req) as [s|] eqn:Hs.
  - destruct (truthy_str supplied) eqn:Hsup;
      [destruct (truthy_str (csrfToken s)) eqn:Hsto|].
    + pose proof (Hlen s eq_refl eq_refl Hsto) as Hl.
      destruct supplied as [a|]; [|discriminate].
      destruct (csrfToken s) as [b|] eqn:Hb; [|discriminate].
      apply truthy_str_Some in Hsup, Hsto. cbn [of_opt] in Hl.
      rewrite (csrf_compared req s a b) by assumption.
      rewrite (proj2 (Nat.eqb_eq _ _) Hl).
      split.
      * intros (s' & Hs' & _ & Heq). injection Hs' as <-.
        rewrite Hb in Heq. injection Heq as ->.
        now rewrite bool_decide_eq_true_2.
      * intros Hnot. rewrite bool_decide_eq_false_2; [eauto|].
        intros ->. apply Hnot. exists s. rewrite Hb.
        repeat split; now apply truthy_str_Some.
    + rewrite (csrf_missing_token req s supplied) by auto. split; [|eauto].
      intros (s' & Hs' & _ & Heq). injection Hs' as <-. congruence.
    + rewrite (csrf_missing_token req s supplied) by auto. split; [|eauto].
      intros (s' & _ & Habs & _). discriminate.
  - rewrite csrf_no_session by assumption. split; [|eauto].
    intros (s' & Habs & _). discriminate.
Qed.

(** Tokens issued from different random draws: the one is refused on the
    session of the other. *)
Lemma csrf_cross_session rA rB reqA reqB tokA tokB reqA' reqB' :
  generateCsrfToken rA reqA = Normal (tokA, reqA') ->
  generateCsrfToken rB reqB = Normal (tokB, reqB') ->
  length rA = 32%nat -> length rB = 32%nat -> rA <> rB ->
  includes (method reqB) safeMethods = false ->
  onSkipPath (path reqB) = false ->
  csrfProtection (with_header (Some tokA) reqB')
  = Respond (json 403 "Forbidden" "Invalid CSRF token").
Proof.
  intros HA HB HlA HlB Hdiff Hm Hp. unfold generateCsrfToken in HA, HB.
  destruct (session reqA) as [sA|]; [|discriminate].
  destruct (session reqB) as [sB|]; [|discriminate].
  injection HA as <- <-. injection HB as <- <-.
  assert (HneA : toHex rA <> "") by (destruct rA; [discriminate HlA | discriminate]).
  assert (HneB : toHex rB <> "") by (destruct rB; [discriminate HlB | discriminate]).
  rewrite (csrf_compared _ {| csrfToken := Some (toHex rB); userId := userId sB |}
             (toHex rA) (toHex rB)); try assumption; try reflexivity.
  - rewrite !toHex_length, HlA, HlB, Nat.eqb_refl.
    rewrite bool_decide_eq_false_2; [reflexivity|].
    intros H. now apply Hdiff, toHex_inj.
  - unfold requestToken. cbn [x_csrf_token with_header].
    now rewrite (proj2 (truthy_str_Some _) HneA).
Qed.

(** C6 (as amended).  The guard lets a request through without looking
    at session or token exactly when its method is GET, HEAD or OPTIONS
    or its path starts with one of the eight entries of [skipPaths].
    Any other request whose token can be read and, when both tokens are
    there, has the length of the stored one, goes through when a session
    exists and the supplied token is the one stored on it, and is
    answered 403 otherwise.  A token issued for one session is answered
    403 on a session whose token came from another random draw. *)
Theorem csrf_guard (m p : string) :
  ((forall sess hdr b,
      csrfProtection {| method := m; path := p; session := sess;
                        x_csrf_token := hdr; body := b |} = Next)
   <-> includes m safeMethods = true \/ onSkipPath p = true)
  /\ (includes m safeMethods = false -> onSkipPath p = false ->
      forall sess hdr b supplied,
        requestToken {| method := m; path := p; session := sess;
                        x_csrf_token := hdr; body := b |} = Normal supplied ->
        (forall s, sess = Some s ->
                   truthy_str supplied = true -> truthy_str (csrfToken s) = true ->
                   String.length (of_opt supplied)
                   = String.length (of_opt (csrfToken s))) ->
        ((exists s, sess = Some s /\ truthy_str supplied = true
                    /\ supplied = csrfToken s) ->
         csrfProtection {| method := m; path := p; session := sess;
                           x_csrf_token := hdr; body := b |} = Next)
        /\ (~ (exists s, sess = Some s /\ truthy_str supplied = true
                         /\ supplied = csrfToken s) ->
            exists msg,
              csrfProtection {| method := m; path := p; session := sess;
                                x_csrf_token := hdr; body := b |}
              = Respond (json 403 "Forbidden" msg)))
  /\ (forall rA rB reqA reqB tokA tokB reqA' reqB',
        generateCsrfToken rA reqA = Normal (tokA, reqA') ->
        generateCsrfToken rB reqB = Normal (tokB, reqB') ->
        length rA = 32%nat -> length rB = 32%nat -> rA <> rB ->
        method reqB = m -> path reqB = p ->
        includes m safeMethods = false -> onSkipPath p = false ->
        csrfProtection (with_header (Some tokA) reqB')
        = Respond (json 403 "Forbidden" "Invalid CSRF token")).
Proof.
  split; [|split].
  - split.
    + intros Hall. specialize (Hall None None None).
      unfold csrfProtection in Hall. cbn [method path session] in Hall.
      destruct (includes m safeMethods); [now left|].
      destruct (onSkipPath p); [now right|]. discriminate.
    + intros H sess hdr b. now apply csrf_skip.
  - intros Hm Hp sess hdr b supplied Ht Hlen.
    now apply (csrf_validated
                 {| method := m; path := p; session := sess;
                    x_csrf_token := hdr; body := b |} supplied).
  - intros rA rB reqA reqB tokA tokB reqA' reqB' HA HB HlA HlB Hd <- <- Hm Hp.
    eapply csrf_cross_session; eassumption.
Qed.

Lemma csrf_guard_witness :
  csrfProtection {| method := "POST"; path := "/api/grants";
                    session := Some {| csrfToken := Some "c0ffee"; userId := None |};
                    x_csrf_token := Some "c0ffee"; body := None |} = Next
  /\ csrfProtection
       (with_header (Some (toHex (repeat "a"%char 32)))
          (with_header None (post_grants (Some (toHex (repeat "b"%char 32))) None)))
     = Respond (json 403 "Forbidden" "Invalid CSRF token").
Proof.
  destruct (csrf_guard "POST" "/api/grants") as (_ & Hchecked & Hcross).
  split.
  - apply (Hchecked eq_refl eq_refl
             (Some {| csrfToken := Some "c0ffee"; userId := None |})
             (Some "c0ffee") None (Some "c0ffee") eq_refl).
    + intros s Hs _ _. injection Hs as <-. reflexivity.
    + eexists. repeat split.
  - apply (Hcross (repeat "a"%char 32) (repeat "b"%char 32)
             (post_grants None None) (post_grants None None)
             (toHex (repeat "a"%char 32)) (toHex (repeat "b"%char 32))
             (with_header None (post_grants (Some (toHex (repeat "a"%char 32))) None))
             (with_header None (post_grants (Some (toHex (repeat "b"%char 32))) None)));
      first [reflexivity | discriminate].
Defined.

(** C6 as it is worded fails twice over.  A POST to /api/logs/siem is
    neither side-effect-free nor one of the entry points the claim
    lists, and goes through with no session and no token; and a token of
    another length than the stored one is answered with neither a pass
    nor a 403: the comparison throws. *)
Lemma csrf_guard_as_worded_fails :
  (includes (method post_siem) safeMethods = false
   /\ onEntryPointPath (path post_siem) = false
   /\ csrfProtection post_siem = Next)
  /\ (includes "POST" safeMethods = false
      /\ onSkipPath "/api/grants" = false
      /\ csrfProtection (post_grants (Some "0123456789abcdef") (Some "0123"))
         = Throw "RangeError").
Proof. repeat split; vm_compute; reflexivity. Qed.

(** C9.  A state-changing request off the skip list, on a session that
    holds a token, with a supplied token of another byte length, makes
    the guard throw a RangeError where a mismatch is meant to be
    answered 403; and there is such a request. *)
Theorem csrf_length_mismatch_throws :
  (forall req sess supplied stored,
     includes (method req) safeMethods = false ->
     onSkipPath (path req) = false ->
     session req = Some sess ->
     csrfToken sess = Some stored ->
     requestToken req = Normal (Some supplied) ->
     supplied <> "" -> stored <> "" ->
     length (Buffer_from supplied) <> length (Buffer_from stored) ->
     csrfProtection req = Throw "RangeError")
  /\ (exists req sess supplied stored,
        includes (method req) safeMethods = false
        /\ onSkipPath (path req) = false
        /\ session req = Some sess
        /\ csrfToken sess = Some stored
        /\ requestToken req = Normal (Some supplied)
        /\ length (Buffer_from supplied) <> length (Buffer_from stored)
        /\ csrfProtection req = Throw "RangeError"
        /\ csrfProtection req <> Respond (json 403 "Forbidden" "Invalid CSRF token")).
Proof.
  split.
  - intros req sess supplied stored Hm Hp Hs Hst Ht Hne1 Hne2 Hlen.
    rewrite (csrf_compared req sess supplied stored) by assumption.
    rewrite !Buffer_from_length in Hlen.
    now rewrite (proj2 (Nat.eqb_neq _ _) Hlen).
  - exists (post_grants (Some "0123456789abcdef") (Some "0123")),
           {| csrfToken := Some "0123456789abcdef"; userId := Some "u1" |},
           "0123", "0123456789abcdef".
    repeat split; try discriminate.
Qed.

Lemma csrf_length_mismatch_witness :
  csrfProtection (post_grants (Some "0123456789abcdef") (Some "0123"))
  = Throw "RangeError".
Proof.
  apply (proj1 csrf_length_mismatch_throws
           (post_grants (Some "0123456789abcdef") (Some "0123"))
           {| csrfToken := Some "0123456789abcdef"; userId := Some "u1" |}
           "0123" "0123456789abcdef");
    first [reflexivity | discriminate].
Defined.

End CsrfFacts.

(** ** The authentication middleware *)

Module AuthFacts.
Import Js UserModel AuthMiddleware.

(** A well-formed bearer header gets as far as [jwt.verify]. *)
Lemma authenticate_bearer env verify db now authorization :
  truthy_str authorization = true ->
  Security.startsWith (of_opt authorization) "Bearer " = true ->
  authenticate env verify db now authorization
  = match verify (substring_from 7 (of_opt authorization)) (JWT_SECRET env) with
    | VerifyError e => AuthRespond (authenticate_catch e)
    | Decoded decoded =>
        match db !! id decoded with
        | None => AuthRespond (json 401 "Unauthorized" "Invalid access token")
        | Some user =>
            if negb (isActive user)
            then AuthRespond (json 401 "Unauthorized" "Account is not active")
            else if truthy (isAccountLocked now user)
            then AuthRespond (json 423 "Account Locked" "Account is temporarily locked")
            else AuthNext user
        end
    end.
Proof. intros Ht Hb. unfold authenticate. now rewrite Ht, Hb. Qed.

(** C1 (as amended).  A token that is malformed, badly signed or expired
    is never let through and is answered 401 "Unauthorized"; the message
    is "Invalid access token" for a malformed and for a badly signed
    token alike, and "Access token has expired" for an expired one. *)
Theorem token_failure_response env verify db now authorization (d : TokenDefect) :
  truthy_str authorization = true ->
  Security.startsWith (of_opt authorization) "Bearer " = true ->
  verify (substring_from 7 (of_opt authorization)) (JWT_SECRET env)
  = VerifyError (jwt_error d) ->
  authenticate env verify db now authorization
  = AuthRespond (json 401 "Unauthorized"
                   match d with
                   | Expired => "Access token has expired"
                   | Malformed | BadSignature => "Invalid access token"
                   end).
Proof.
  intros Ht Hb Hv. rewrite authenticate_bearer, Hv by assumption.
  destruct d; reflexivity.
Qed.

Lemma token_failure_response_witness :
  authenticate default_env toy_verify ∅ 0 (Some "Bearer forged")
  = AuthRespond (json 401 "Unauthorized" "Invalid access token").
Proof.
  apply (token_failure_response default_env toy_verify ∅ 0
           (Some "Bearer forged") BadSignature); reflexivity.
Defined.

(** C1 as it is worded fails: the response to an expired token differs
    from the response to a malformed one, and says which check failed. *)
Lemma expired_token_is_told_apart :
  authenticate default_env toy_verify ∅ 0 (Some "Bearer expired")
  = AuthRespond (json 401 "Unauthorized" "Access token has expired")
  /\ authenticate default_env toy_verify ∅ 0 (Some "Bearer garbage")
     = AuthRespond (json 401 "Unauthorized" "Invalid access token")
  /\ authenticate default_env toy_verify ∅ 0 (Some "Bearer expired")
     <> authenticate default_env toy_verify ∅ 0 (Some "Bearer garbage").
Proof. repeat split; discriminate. Qed.

(** C2 (as amended).  With a token that verifies, [authenticate] looks
    the user up in the collection on that very request: the request goes
    on exactly when the user is there, active and not locked at that
    time; an account deactivated in the collection is answered 401 and
    one locked there 423, however valid the token still is. *)
Theorem authenticate_reads_the_user env verify (db : gmap string User) now
    authorization decoded :
  truthy_str authorization = true ->
  Security.startsWith (of_opt authorization) "Bearer " = true ->
  verify (substring_from 7 (of_opt authorization)) (JWT_SECRET env)
  = Decoded decoded ->
  (forall user,
     authenticate env verify db now authorization = AuthNext user
     <-> db !! id decoded = Some user /\ isActive user = true
         /\ truthy (isAccountLocked now user) = false)
  /\ (db !! id decoded = None ->
      authenticate env verify db now authorization
      = AuthRespond (json 401 "Unauthorized" "Invalid access token"))
  /\ (forall user,
        isActive user = false ->
        authenticate env verify (<[id decoded := user]> db) now authorization
        = AuthRespond (json 401 "Unauthorized" "Account is not active"))
  /\ (forall user,
        isActive user = true ->
        truthy (isAccountLocked now user) = true ->
        authenticate env verify (<[id decoded := user]> db) now authorization
        = AuthRespond (json 423 "Account Locked" "Account is temporarily locked")).
Proof.
  intros Ht Hb Hv. split; [|repeat split].
  - intros user. rewrite authenticate_bearer, Hv by assumption. split.
    + destruct (db !! id decoded) as [u|]; [|discriminate].
      destruct (isActive u) eqn:Ha; [|discriminate]. cbn [negb].
      destruct (truthy (isAccountLocked now u)) eqn:Hl; [discriminate|].
      now intros [= <-].
    + intros (Hfound & Ha & Hl). now rewrite Hfound, Ha, Hl.
  - intros Hnone. rewrite authenticate_bearer, Hv, Hnone by assumption.
    reflexivity.
  - intros user Ha.
    rewrite authenticate_bearer, Hv, lookup_insert_eq, Ha by assumption.
    reflexivity.
  - intros user Ha Hl.
    rewrite authenticate_bearer, Hv, lookup_insert_eq, Ha, Hl by assumption.
    reflexivity.
Qed.

Lemma authenticate_reads_the_user_witness :
  authenticate default_env toy_verify (<["u1" := set_isActive false alice]> ∅) 0
    (Some "Bearer good")
  = AuthRespond (json 401 "Unauthorized" "Account is not active").
Proof.
  destruct (authenticate_reads_the_user default_env toy_verify ∅ 0
              (Some "Bearer good")
              {| id := "u1"; claim_email := "alice@example.org";
                 claim_roles := ["APPLICANT"] |}
              eq_refl eq_refl eq_refl) as (_ & _ & Hinactive & _).
  apply (Hinactive (set_isActive false alice)). reflexivity.
Defined.

(** C2 as it is worded fails: the same still-valid token is let through
    while the account is active in the collection and refused as soon as
    the account is deactivated there. *)
Lemma deactivation_takes_effect_at_once :
  authenticate default_env toy_verify (<["u1" := alice]> ∅) 0 (Some "Bearer good")
  = AuthNext alice
  /\ authenticate default_env toy_verify (<["u1" := set_isActive false alice]> ∅) 0
       (Some "Bearer good")
     = AuthRespond (json 401 "Unauthorized" "Account is not active").
Proof.
  split; rewrite authenticate_bearer by reflexivity;
    change (toy_verify (substring_from 7 (of_opt (Some "Bearer good")))
              (JWT_SECRET default_env))
      with (Decoded {| id := "u1"; claim_email := "alice@example.org";
                       claim_roles := ["APPLICANT"] |});
    cbn [id]; rewrite lookup_insert_eq; reflexivity.
Qed.

End AuthFacts.

(** ** The serialised user *)

Module SerialisationFacts.
Import Serialisation.

Lemma delete_key_cons k k' v o :
  delete_key k ((k', v) :: o)
  = if String.eqb k' k then delete_key k o else (k', v) :: delete_key k o.
Proof. unfold delete_key. cbn. now destruct (String.eqb k' k). Qed.

(** [transform] keeps, in order, the properties it does not delete. *)
Lemma transform_filter o :
  transform o = List.filter (fun p => negb (deleted (fst p))) o.
Proof.
  induction o as [|[k v] o IH]; [reflexivity|].
  unfold transform in *. cbn [List.filter fst]. rewrite <- IH.
  unfold deleted. cbn [existsb].
  rewrite !delete_key_cons.
  destruct (String.eqb k "passwordHash"); [reflexivity|].
  rewrite !delete_key_cons.
  destruct (String.eqb k "passwordSalt"); [reflexivity|].
  rewrite !delete_key_cons.
  destruct (String.eqb k "passwordHistory"); [reflexivity|].
  rewrite !delete_key_cons.
  destruct (String.eqb k "twoFactorSecret"); [reflexivity|].
  rewrite !delete_key_cons.
  destruct (String.eqb k "__v"); reflexivity.
Qed.

Lemma secret_is_deleted k : k ∈ secretFields -> deleted k = true.
Proof.
  unfold secretFields. intros H.
  repeat (apply elem_of_cons in H as [->|H]; [reflexivity|]).
  now apply elem_of_nil in H.
Qed.

Lemma transform_differ o1 o2 :
  differ_only_in secretFields o1 o2 -> transform o1 = transform o2.
Proof.
  intros H. rewrite !transform_filter.
  induction H as [|k v o1 o2 _ IH|k v o1 o2 Hk _ IH|k v o1 o2 Hk _ IH];
    cbn [List.filter fst].
  - reflexivity.
  - now rewrite IH.
  - now rewrite (secret_is_deleted k Hk).
  - now rewrite (secret_is_deleted k Hk).
Qed.

Lemma transform_no_secret o k :
  k ∈ secretFields -> k ∉ map fst (transform o).
Proof.
  intros Hk Hin. rewrite transform_filter in Hin.
  apply list_elem_of_In, in_map_iff in Hin as ([k' v] & <- & Hin).
  apply filter_In in Hin as [_ Hkeep]. cbn [fst] in *.
  now rewrite (secret_is_deleted k' Hk) in Hkeep.
Qed.

(** C10.  Two user objects that differ only in passwordHash,
    passwordSalt, passwordHistory or twoFactorSecret have the same
    transform, so whatever [JSON.stringify] makes of the one it makes of
    the other; and none of the four is a property of a transformed
    object. *)
Theorem toJSON_hides_secrets (stringify : Obj -> string) :
  (forall o1 o2,
     differ_only_in secretFields o1 o2 ->
     stringify (transform o1) = stringify (transform o2))
  /\ (forall o k, k ∈ secretFields -> k ∉ map fst (transform o)).
Proof.
  split.
  - intros o1 o2 H. now rewrite (transform_differ o1 o2 H).
  - apply transform_no_secret.
Qed.

Lemma alice_objects_differ h1 h2 :
  differ_only_in secretFields (alice_object h1) (alice_object h2).
Proof.
  unfold alice_object.
  do 2 apply differ_same.
  apply differ_left; [unfold secretFields; set_solver|].
  apply differ_right; [unfold secretFields; set_solver|].
  repeat apply differ_same. apply differ_nil.
Qed.

Lemma toJSON_hides_secrets_witness :
  stringify_plain (JObj (transform (alice_object "$2b$12$saltcorrect horse")))
  = stringify_plain (JObj (transform (alice_object "$2b$12$saltanother one"))).
Proof.
  apply (proj1 (toJSON_hides_secrets (fun o => stringify_plain (JObj o)))
           (alice_object "$2b$12$saltcorrect horse")
           (alice_object "$2b$12$saltanother one")
           (alice_objects_differ _ _)).
Defined.

End SerialisationFacts.

(** ** The client's single-flight refresh *)

Module RefreshFacts.
Import ClientRefresh.







(** Whatever the order of calls and settlements, every caller still
    waiting hangs on the promise held in the variable: there is never
    more than one refresh in flight. *)
Lemma at_most_one_in_flight evs :
  forall c p, (c, p) ∈ pending (run evs init) ->
              refreshPromise (run evs init) = Some p.
Proof.
  unfold run. induction evs as [|ev evs IH] using rev_ind; intros c p Hin.
  - cbn in Hin. now apply elem_of_nil in Hin.
  - rewrite fold_left_app in *. cbn [fold_left] in *.
    set (st := fold_left step evs init) in *.
    destruct ev as [c'|p' o]; cbn [step] in *.
    + unfold refreshToken in *.
      destruct (refreshPromise st) as [q|] eqn:Hq; cbn [pending refreshPromise] in *.
      * apply elem_of_app in Hin as [Hin|Hin]; [now apply (IH c p)|].
        apply list_elem_of_singleton in Hin. congruence.
      * apply elem_of_app in Hin as [Hin|Hin];
          [specialize (IH c p Hin); discriminate|].
        apply list_elem_of_singleton in Hin. congruence.
    + unfold settle in *.
      destruct (existsb (awaits p') (pending st)) eqn:Hex;
        [|now apply (IH c p)].
      cbn [pending refreshPromise] in *.
      apply list_elem_of_In, filter_In in Hin as [Hin Hnot].
      apply list_elem_of_In in Hin. pose proof (IH c p Hin) as Hp.
      apply existsb_exists in Hex as ([c'' p''] & Hin' & Haw).
      apply list_elem_of_In in Hin'. pose proof (IH c'' p'' Hin') as Hp''.
      unfold awaits in *. cbn [snd] in *. apply Nat.eqb_eq in Haw.
      assert (p = p') by congruence. subst.
      now rewrite Nat.eqb_refl in Hnot.
Qed.

End RefreshFacts.

(** ** More on the CSRF guard *)

Module CsrfIssueFacts.
Import Js Security AppCsrf.

(** A token just issued passes the guard when sent in the header. *)
Lemma issued_token_passes random req tok req' :
  generateCsrfToken random req = Normal (tok, req') ->
  random <> [] ->
  csrfProtection (with_header (Some tok) req') = Next.
Proof.
  intros Hgen Hrandom. unfold generateCsrfToken in Hgen.
  destruct (session req) as [s|] eqn:Hs; [|discriminate].
  injection Hgen as <- <-.
  assert (Hne : toHex random <> "") by (destruct random; [contradiction | discriminate]).
  destruct (includes (method req) safeMethods) eqn:Hm;
    [apply CsrfFacts.csrf_skip; now left|].
  destruct (onSkipPath (path req)) eqn:Hp;
    [apply CsrfFacts.csrf_skip; now right|].
  rewrite (CsrfFacts.csrf_compared _
             {| csrfToken := Some (toHex random); userId := userId s |}
             (toHex random) (toHex random)); try assumption; try reflexivity.
  - now rewrite Nat.eqb_refl, bool_decide_eq_true_2.
  - unfold requestToken. cbn [x_csrf_token with_header].
    now rewrite (proj2 (CsrfFacts.truthy_str_Some _) Hne).
Qed.

(** X1.  The token that [generateCsrfToken] issues for a request is
    stored on its session, is twice as long as the random draw, and is
    accepted by the guard on that session, sent in the header or in the
    [_csrf] field of the body. *)
Theorem issued_token_is_accepted random req tok req' :
  generateCsrfToken random req = Normal (tok, req') ->
  length random = 32%nat ->
  String.length tok = 64%nat
  /\ (exists sess, session req' = Some sess /\ csrfToken sess = Some tok)
  /\ csrfProtection (with_header (Some tok) req') = Next
  /\ csrfProtection {| method := method req'; path := path req';
                       session := session req'; x_csrf_token := None;
                       body := Some {| _csrf := Some tok |} |} = Next.
Proof.
  intros Hgen Hlen.
  assert (Hrandom : random <> []) by (destruct random; discriminate).
  pose proof (issued_token_passes random req tok req' Hgen Hrandom) as Hpass.
  unfold generateCsrfToken in Hgen.
  destruct (session req) as [s|] eqn:Hs; [|discriminate].
  injection Hgen as <- <-.
  assert (Hne : toHex random <> "") by (destruct random; discriminate).
  split; [now rewrite CsrfFacts.toHex_length, Hlen|].
  split; [eexists; split; reflexivity|].
  split; [exact Hpass|].
  - destruct (includes (method req) safeMethods) eqn:Hm;
      [apply CsrfFacts.csrf_skip; now left|].
    destruct (onSkipPath (path req)) eqn:Hp;
      [apply CsrfFacts.csrf_skip; now right|].
    rewrite (CsrfFacts.csrf_compared _
               {| csrfToken := Some (toHex random); userId := userId s |}
               (toHex random) (toHex random)); try assumption; try reflexivity.
    now rewrite Nat.eqb_refl, bool_decide_eq_true_2.
Qed.

Lemma issued_token_is_accepted_witness :
  String.length (toHex (repeat "k"%char 32)) = 64%nat
  /\ (exists sess,
        session (with_header None (post_grants (Some (toHex (repeat "k"%char 32))) None))
        = Some sess
        /\ csrfToken sess = Some (toHex (repeat "k"%char 32)))
  /\ csrfProtection
       (with_header (Some (toHex (repeat "k"%char 32)))
          (with_header None (post_grants (Some (toHex (repeat "k"%char 32))) None)))
     = Next
  /\ csrfProtection
       {| method := "POST"; path := "/api/grants";
          session := session (with_header None
                                (post_grants (Some (toHex (repeat "k"%char 32))) None));
          x_csrf_token := None;
          body := Some {| _csrf := Some (toHex (repeat "k"%char 32)) |} |} = Next.
Proof.
  apply (issued_token_is_accepted (repeat "k"%char 32) (post_grants None None)
           (toHex (repeat "k"%char 32))
           (with_header None (post_grants (Some (toHex (repeat "k"%char 32))) None)));
    reflexivity.
Defined.

(** X2.  Issuing a second token on the same session overwrites the
    first: on a state-changing request off the skip list the new token
    passes and the old one, from another random draw, is answered 403. *)
Theorem rotation_invalidates_old_token r1 r2 req tok1 req1 tok2 req2 :
  generateCsrfToken r1 req = Normal (tok1, req1) ->
  generateCsrfToken r2 req1 = Normal (tok2, req2) ->
  length r1 = 32%nat -> length r2 = 32%nat -> r1 <> r2 ->
  includes (method req) safeMethods = false ->
  onSkipPath (path req) = false ->
  csrfProtection (with_header (Some tok2) req2) = Next
  /\ csrfProtection (with_header (Some tok1) req2)
     = Respond (json 403 "Forbidden" "Invalid CSRF token").
Proof.
  intros H1 H2 Hl1 Hl2 Hd Hm Hp. split.
  - apply (issued_token_passes r2 req1 tok2 req2 H2).
    destruct r2; discriminate.
  - apply (CsrfFacts.csrf_cross_session r1 r2 req req1 tok1 tok2 req1 req2);
      try assumption.
    + unfold generateCsrfToken in H1.
      destruct (session req); [|discriminate]. now injection H1 as <- <-.
    + unfold generateCsrfToken in H1.
      destruct (session req); [|discriminate]. now injection H1 as <- <-.
Qed.

Lemma rotation_invalidates_old_token_witness :
  csrfProtection
    (with_header (Some (toHex (repeat "b"%char 32)))
       (with_header None (post_grants (Some (toHex (repeat "b"%char 32))) None)))
  = Next
  /\ csrfProtection
       (with_header (Some (toHex (repeat "a"%char 32)))
          (with_header None (post_grants (Some (toHex (repeat "b"%char 32))) None)))
     = Respond (json 403 "Forbidden" "Invalid CSRF token").
Proof.
  apply (rotation_invalidates_old_token
           (repeat "a"%char 32) (repeat "b"%char 32) (post_grants None None)
           (toHex (repeat "a"%char 32))
           (with_header None (post_grants (Some (toHex (repeat "a"%char 32))) None))
           (toHex (repeat "b"%char 32))
           (with_header None (post_grants (Some (toHex (repeat "b"%char 32))) None)));
    first [reflexivity | discriminate].
Defined.

(** X3.  Mounted by the application, the guard is not run on a request
    without a session: such a request goes through whatever its method,
    path and token, and the answer "Session required for CSRF
    protection" is never given. *)
Theorem sessionless_requests_skip_csrf :
  (forall req, session req = None -> csrfMiddleware req = Next)
  /\ (forall req,
        csrfMiddleware req
        <> Respond (json 403 "Forbidden" "Session required for CSRF protection")).
Proof.
  split.
  - intros req Hs. unfold csrfMiddleware. rewrite Hs.
    rewrite bool_decide_eq_false_2 by (intros [? ?]; discriminate).
    now rewrite orb_true_r.
  - intros req. unfold csrfMiddleware.
    destruct (String.eqb (path req) "/health" || String.eqb (path req) "/api/health"
              || negb (bool_decide (is_Some (session req)))) eqn:Hskip;
      [discriminate|].
    apply orb_false_elim in Hskip as [_ Hsess].
    apply negb_false_iff, bool_decide_eq_true in Hsess as [sess Hsess].
    unfold csrfProtection. rewrite Hsess.
    destruct (includes (method req) safeMethods); [discriminate|].
    destruct (onSkipPath (path req)); [discriminate|].
    destruct (requestToken req) as [tok|e]; [|discriminate].
    destruct (negb (truthy_str tok) || negb (truthy_str (csrfToken sess)));
      [discriminate|].
    destruct (timingSafeEqual _ _) as [[]|]; discriminate.
Qed.

Lemma sessionless_requests_skip_csrf_witness :
  csrfMiddleware {| method := "DELETE"; path := "/api/users/42"; session := None;
                    x_csrf_token := None; body := None |} = Next.
Proof.
  apply (proj1 sessionless_requests_skip_csrf
           {| method := "DELETE"; path := "/api/users/42"; session := None;
              x_csrf_token := None; body := None |}).
  reflexivity.
Defined.

End CsrfIssueFacts.

(** ** More on the login handler *)

Module LoginFacts.
Import Js UserModel AuthController AuthMiddleware AccountChecks.



(** The answer of [login] on an account found locked. *)
Lemma login_locked_423 env bc now findOne body u until :
  truthy_str (body_email body) = true ->
  truthy_str (body_password body) = true ->
  findOne (toLowerCase (of_opt (body_email body))) = Some u ->
  isLocked u = true ->
  lockUntil u = Some (Fin until) ->
  now < until ->
  login env bc now findOne body
  = (json 423 "Account Locked"
       "Account is temporarily locked due to too many failed login attempts",
     None).
Proof.
  intros He Hp Hfind Hl Hu Hnow. unfold login. rewrite He, Hp, Hfind.
  unfold isAccountLocked. rewrite Hl, Hu. unfold num_gt.
  rewrite (proj2 (Z.gtb_lt _ _)) by lia. reflexivity.
Qed.

(** X5.  While an account is locked, [login] answers 423 whatever the
    password, the correct one included, and saves nothing: the counters
    do not move and the lock is not extended. *)
Theorem login_while_locked env bc now findOne body u until :
  truthy_str (body_email body) = true ->
  truthy_str (body_password body) = true ->
  findOne (toLowerCase (of_opt (body_email body))) = Some u ->
  isLocked u = true ->
  lockUntil u = Some (Fin until) ->
  now < until ->
  status (fst (login env bc now findOne body)) = 423
  /\ snd (login env bc now findOne body) = None
  /\ (forall body',
        truthy_str (body_email body') = true ->
        truthy_str (body_password body') = true ->
        toLowerCase (of_opt (body_email body')) = toLowerCase (of_opt (body_email body)) ->
        login env bc now findOne body' = login env bc now findOne body).
Proof.
  intros He Hp Hfind Hl Hu Hnow.
  rewrite (login_locked_423 env bc now findOne body u until) by assumption.
  repeat split.
  intros body' He' Hp' Hsame.
  apply (login_locked_423 env bc now findOne body' u until); try assumption.
  now rewrite Hsame.
Qed.

Lemma login_while_locked_witness :
  status (fst (login default_env toy_bcrypt 5000
                 (fun _ => Some (set_lockUntil (Some (Fin 9000)) (set_isLocked true alice)))
                 {| body_email := Some "alice@example.org";
                    body_password := Some "correct horse" |})) = 423
  /\ snd (login default_env toy_bcrypt 5000
            (fun _ => Some (set_lockUntil (Some (Fin 9000)) (set_isLocked true alice)))
            {| body_email := Some "alice@example.org";
               body_password := Some "correct horse" |}) = None.
Proof.
  destruct (login_while_locked default_env toy_bcrypt 5000
              (fun _ => Some (set_lockUntil (Some (Fin 9000)) (set_isLocked true alice)))
              {| body_email := Some "alice@example.org";
                 body_password := Some "correct horse" |}
              (set_lockUntil (Some (Fin 9000)) (set_isLocked true alice)) 9000)
    as (Hstatus & Hsaved & _); first [reflexivity | lia | idtac].
  split; assumption.
Defined.

(** X6.  [login] answers 200 exactly when e-mail address and password
    are given, the user is found, not locked at that time and active,
    the password matches, and both JWT secrets are set. *)
Theorem login_succeeds_iff env bc now findOne body :
  status (fst (login env bc now findOne body)) = 200
  <-> truthy_str (body_email body) = true
      /\ truthy_str (body_password body) = true
      /\ (exists u,
            findOne (toLowerCase (of_opt (body_email body))) = Some u
            /\ truthy (isAccountLocked now u) = false
            /\ isActive u = true
            /\ comparePassword bc (body_password body) u = true)
      /\ truthy_str (JWT_SECRET env) = true
      /\ truthy_str (JWT_REFRESH_SECRET env) = true.
Proof.
  unfold login. split.
  - destruct (truthy_str (body_email body)); [|discriminate].
    destruct (truthy_str (body_password body)); [|discriminate].
    cbn [negb orb].
    destruct (findOne _) as [u|]; [|discriminate].
    destruct (truthy (isAccountLocked now u)) eqn:Hl; [discriminate|].
    destruct (isActive u) eqn:Ha; [|discriminate]. cbn [negb].
    destruct (comparePassword bc (body_password body) u) eqn:Hc; [|discriminate].
    cbn [negb].
    destruct (truthy_str (JWT_SECRET env)); [|discriminate].
    destruct (truthy_str (JWT_REFRESH_SECRET env)); [|discriminate].
    intros _. repeat split. exists u. auto.
  - intros (-> & -> & (u & -> & -> & -> & ->) & -> & ->). reflexivity.
Qed.

(** X7.  The run-out of a lock does not reset the counter: on an
    account whose lock has expired and whose counter still stands at the
    threshold or above, a single wrong password is answered 401 and
    locks the account again, until that attempt's time plus the lock
    duration. *)
Theorem relock_after_expiry env bc now findOne body u (t d until : Z) :
  maxAttempts env = Fin t ->
  lockTime env = Fin d ->
  - maxTime <= now + d <= maxTime ->
  truthy_str (body_email body) = true ->
  truthy_str (body_password body) = true ->
  findOne (toLowerCase (of_opt (body_email body))) = Some u ->
  isActive u = true ->
  lockUntil u = Some (Fin until) ->
  until < now ->
  t <= failedLoginAttempts u ->
  comparePassword bc (body_password body) u = false ->
  exists u',
    login env bc now findOne body
    = (json 401 "Unauthorized" "Invalid email or password", Some u')
    /\ isLocked u' = true
    /\ lockUntil u' = Some (Fin (now + d))
    /\ failedLoginAttempts u' = failedLoginAttempts u + 1.
Proof.
  intros Ht Hd Hrange He Hp Hfind Hact Hu Hpast Hcount Hcmp.
  assert (Hnot : truthy (isAccountLocked now u) = false).
  { unfold isAccountLocked. rewrite Hu.
    destruct (isLocked u); [|reflexivity].
    unfold num_gt. cbn. rewrite Z.gtb_ltb. apply Z.ltb_ge. lia. }
  exists (snd (incrementLoginAttempts env bc now u)).
  split; [now apply LockoutFacts.login_wrong_password|].
  destruct (LockoutFacts.increment_fields env bc now u) as (Hf & Hl & Hlu).
  cbn zeta in *.
  assert (Hcross : num_ge (Fin (failedLoginAttempts u + 1)) (maxAttempts env) = true).
  { rewrite Ht. unfold num_ge. rewrite Z.geb_leb. apply Z.leb_le. lia. }
  rewrite Hcross in Hl, Hlu. repeat split; try assumption.
  rewrite Hlu, Hd. unfold num_add, newDate.
  destruct Hrange as [Hlo Hhi]. apply Z.leb_le in Hlo, Hhi.
  now rewrite Hlo, Hhi.
Qed.

Lemma relock_after_expiry_witness :
  exists u',
    login default_env toy_bcrypt 2000000 (fun _ => Some
        (set_failedLoginAttempts 5
           (set_lockUntil (Some (Fin 905000)) (set_isLocked true alice))))
      {| body_email := Some "alice@example.org"; body_password := Some "guess" |}
    = (json 401 "Unauthorized" "Invalid email or password", Some u')
    /\ isLocked u' = true
    /\ lockUntil u' = Some (Fin (2000000 + 900000))
    /\ failedLoginAttempts u'
       = failedLoginAttempts
           (set_failedLoginAttempts 5
              (set_lockUntil (Some (Fin 905000)) (set_isLocked true alice))) + 1.
Proof.
  apply (relock_after_expiry default_env toy_bcrypt 2000000
           (fun _ => Some
              (set_failedLoginAttempts 5
                 (set_lockUntil (Some (Fin 905000)) (set_isLocked true alice))))
           {| body_email := Some "alice@example.org"; body_password := Some "guess" |}
           (set_failedLoginAttempts 5
              (set_lockUntil (Some (Fin 905000)) (set_isLocked true alice)))
           5 900000 905000);
    first [reflexivity | unfold maxTime; cbn; lia].
Defined.

(** X8.  The handlers do not check in the same order.  For an account
    that is both deactivated and locked, [login] answers 423, while
    [authenticate] and [checkAccountStatus] answer 401 "Account is not
    active". *)
Theorem locked_and_inactive_account env bc verify (db : gmap string User) now
    findOne body authorization decoded u until :
  isActive u = false ->
  isLocked u = true ->
  lockUntil u = Some (Fin until) ->
  now < until ->
  truthy_str (body_email body) = true ->
  truthy_str (body_password body) = true ->
  findOne (toLowerCase (of_opt (body_email body))) = Some u ->
  truthy_str authorization = true ->
  Security.startsWith (of_opt authorization) "Bearer " = true ->
  verify (substring_from 7 (of_opt authorization)) (JWT_SECRET env) = Decoded decoded ->
  db !! id decoded = Some u ->
  db !! _id u = Some u ->
  status (fst (login env bc now findOne body)) = 423
  /\ authenticate env verify db now authorization
     = AuthRespond (json 401 "Unauthorized" "Account is not active")
  /\ checkAccountStatus db now (Some u)
     = AuthRespond (json 401 "Unauthorized" "Account is not active").
Proof.
  intros Ha Hl Hu Hnow He Hp Hfind Ht Hb Hv Hdb Hself. repeat split.
  - now rewrite (login_locked_423 env bc now findOne body u until).
  - rewrite AuthFacts.authenticate_bearer, Hv, Hdb, Ha by assumption. reflexivity.
  - unfold checkAccountStatus. now rewrite Hself, Ha.
Qed.

Lemma locked_and_inactive_account_witness :
  status (fst (login default_env toy_bcrypt 5000
                 (fun _ => Some (set_isActive false
                    (set_lockUntil (Some (Fin 9000)) (set_isLocked true alice))))
                 {| body_email := Some "alice@example.org";
                    body_password := Some "correct horse" |})) = 423
  /\ authenticate default_env toy_verify
       (<["u1" := set_isActive false
                    (set_lockUntil (Some (Fin 9000)) (set_isLocked true alice))]> ∅)
       5000 (Some "Bearer good")
     = AuthRespond (json 401 "Unauthorized" "Account is not active")
  /\ checkAccountStatus
       (<["u1" := set_isActive false
                    (set_lockUntil (Some (Fin 9000)) (set_isLocked true alice))]> ∅)
       5000
       (Some (set_isActive false
                (set_lockUntil (Some (Fin 9000)) (set_isLocked true alice))))
     = AuthRespond (json 401 "Unauthorized" "Account is not active").
Proof.
  apply (locked_and_inactive_account default_env toy_bcrypt toy_verify
           (<["u1" := set_isActive false
                        (set_lockUntil (Some (Fin 9000)) (set_isLocked true alice))]> ∅)
           5000
           (fun _ => Some (set_isActive false
              (set_lockUntil (Some (Fin 9000)) (set_isLocked true alice))))
           {| body_email := Some "alice@example.org";
              body_password := Some "correct horse" |}
           (Some "Bearer good")
           {| id := "u1"; claim_email := "alice@example.org";
              claim_roles := ["APPLICANT"] |}
           (set_isActive false
              (set_lockUntil (Some (Fin 9000)) (set_isLocked true alice)))
           9000);
    first [reflexivity | lia | apply lookup_insert_eq].
Defined.

Lemma toLowerCase_empty s : toLowerCase s = "" -> s = "".
Proof. destruct s; [reflexivity | discriminate]. Qed.

(** X27.  [login] looks the user up by the e-mail address in lower case:
    two requests whose addresses differ only in the case of ASCII
    letters, with the same password, get the same treatment. *)
Theorem login_ignores_email_case env bc now findOne (e e' : string) pw :
  toLowerCase e = toLowerCase e' ->
  login env bc now findOne {| body_email := Some e; body_password := pw |}
  = login env bc now findOne {| body_email := Some e'; body_password := pw |}.
Proof.
  intros Hlow. unfold login. cbn [body_email body_password of_opt].
  rewrite Hlow.
  assert (Ht : truthy_str (Some e) = truthy_str (Some e')).
  { destruct e as [|c r], e' as [|c' r']; try reflexivity; discriminate. }
  now rewrite Ht.
Qed.

Lemma login_ignores_email_case_witness :
  login default_env toy_bcrypt 100 (fun _ => Some alice)
    {| body_email := Some "Alice@Example.ORG"; body_password := Some "guess" |}
  = login default_env toy_bcrypt 100 (fun _ => Some alice)
      {| body_email := Some "alice@example.org"; body_password := Some "guess" |}.
Proof.
  apply (login_ignores_email_case default_env toy_bcrypt 100 (fun _ => Some alice)
           "Alice@Example.ORG" "alice@example.org" (Some "guess")).
  reflexivity.
Defined.

End LoginFacts.

(** ** The rest of the authentication middleware *)

Module AccountCheckFacts.
Import Js UserModel AuthMiddleware AccountChecks.

(** X9.  On a collection keyed by [_id], [checkAccountStatus] run after
    [authenticate] at the same time lets through every request that
    [authenticate] let through, with the same user. *)
Theorem checkAccountStatus_after_authenticate env verify (db : gmap string User)
    now authorization user :
  (forall k u, db !! k = Some u -> _id u = k) ->
  authenticate env verify db now authorization = AuthNext user ->
  checkAccountStatus db now (Some user) = AuthNext user.
Proof.
  intros Hkeys Hauth. unfold authenticate in Hauth.
  destruct (negb (truthy_str authorization)
            || negb (Security.startsWith (of_opt authorization) "Bearer "));
    [discriminate|].
  destruct (verify _ _) as [decoded|e]; [|discriminate].
  destruct (db !! id decoded) as [u|] eqn:Hfound; [|discriminate].
  destruct (negb (isActive u)) eqn:Ha; [discriminate|].
  destruct (truthy (isAccountLocked now u)) eqn:Hl; [discriminate|].
  injection Hauth as <-.
  unfold checkAccountStatus.
  rewrite (Hkeys _ _ Hfound), Hfound, Ha, Hl. reflexivity.
Qed.

Lemma checkAccountStatus_after_authenticate_witness :
  checkAccountStatus (<["u1" := alice]> ∅) 0 (Some alice) = AuthNext alice.
Proof.
  apply (checkAccountStatus_after_authenticate default_env toy_verify
           (<["u1" := alice]> ∅) 0 (Some "Bearer good") alice).
  - intros k u Hk. apply lookup_insert_Some in Hk as [[<- <-]|[_ Hk]].
    + reflexivity.
    + now rewrite lookup_empty in Hk.
  - rewrite AuthFacts.authenticate_bearer by reflexivity.
    change (toy_verify (substring_from 7 (of_opt (Some "Bearer good")))
              (JWT_SECRET default_env))
      with (Decoded {| id := "u1"; claim_email := "alice@example.org";
                       claim_roles := ["APPLICANT"] |}).
    cbn [id]. rewrite lookup_insert_eq. reflexivity.
Defined.

(** X10.  [optionalAuthenticate] lets a request without a Bearer header
    go on unauthenticated.  With a Bearer header, run on the middleware
    object it gives what [authenticate] gives, so that a bad token is
    answered 401 rather than taken for no token; called detached it lets
    the request go on unauthenticated whatever the token. *)
Theorem optionalAuthenticate_cases env verify db now authorization :
  (truthy_str authorization = false
   \/ Security.startsWith (of_opt authorization) "Bearer " = false ->
   forall bound,
     optionalAuthenticate bound env verify db now authorization = Anonymous)
  /\ (truthy_str authorization = true ->
      Security.startsWith (of_opt authorization) "Bearer " = true ->
      optionalAuthenticate false env verify db now authorization = Anonymous
      /\ optionalAuthenticate true env verify db now authorization
         = Authenticated (authenticate env verify db now authorization)
      /\ forall d,
           verify (substring_from 7 (of_opt authorization)) (JWT_SECRET env)
           = VerifyError (jwt_error d) ->
           exists msg,
             optionalAuthenticate true env verify db now authorization
             = Authenticated (AuthRespond (json 401 "Unauthorized" msg))).
Proof.
  split.
  - intros Hno bound. unfold optionalAuthenticate.
    destruct Hno as [-> | ->]; [reflexivity|]. now rewrite orb_true_r.
  - intros Ht Hb. unfold optionalAuthenticate. rewrite Ht, Hb. cbn [negb orb].
    repeat split. intros d Hv.
    rewrite AuthFacts.authenticate_bearer, Hv by assumption.
    destruct d; eexists; reflexivity.
Qed.

Lemma optionalAuthenticate_cases_witness :
  optionalAuthenticate false default_env toy_verify ∅ 0 (Some "Bearer expired")
  = Anonymous
  /\ optionalAuthenticate true default_env toy_verify ∅ 0 (Some "Bearer expired")
     = Authenticated (authenticate default_env toy_verify ∅ 0 (Some "Bearer expired")).
Proof.
  destruct (proj2 (optionalAuthenticate_cases default_env toy_verify ∅ 0
                     (Some "Bearer expired")) eq_refl eq_refl)
    as (Hdetached & Hbound & _).
  split; assumption.
Defined.

Lemma toUpperCase_idempotent s : toUpperCase (toUpperCase s) = toUpperCase s.
Proof.
  induction s as [|c s IH]; [reflexivity|]. cbn [toUpperCase]. rewrite IH. f_equal.
  destruct c as [[] [] [] [] [] [] [] []]; reflexivity.
Qed.

(** X11.  [requireSuperAdmin] refuses a request without a user, and lets
    a request with a user through exactly when [hasRole] finds the role
    asked for as super_admin in any letter case. *)
Theorem requireSuperAdmin_hasRole (user : User) (role : string) :
  toUpperCase role = "SUPER_ADMIN" ->
  (requireSuperAdmin (Some user) = Security.Next <-> hasRole role user = true)
  /\ requireSuperAdmin None
     = Security.Respond (json 403 "Forbidden" "Super administrator access required")
  /\ hasRole (toUpperCase role) user = hasRole role user.
Proof.
  intros Hrole. unfold requireSuperAdmin, hasRole.
  rewrite toUpperCase_idempotent, Hrole. repeat split.
  - destruct (Security.includes "SUPER_ADMIN" (roles user)); [reflexivity|discriminate].
  - now intros ->.
Qed.

Lemma requireSuperAdmin_hasRole_witness :
  (requireSuperAdmin (Some alice) = Security.Next <-> hasRole "Super_Admin" alice = true)
  /\ requireSuperAdmin None
     = Security.Respond (json 403 "Forbidden" "Super administrator access required")
  /\ hasRole (toUpperCase "Super_Admin") alice = hasRole "Super_Admin" alice.
Proof.
  apply (requireSuperAdmin_hasRole alice "Super_Admin"). reflexivity.
Defined.

End AccountCheckFacts.

(** ** The token refresh *)

Module TokenRefreshFacts.
Import Js UserModel AuthMiddleware TokenRefresh.

(** X12.  [refreshToken] answers a refresh token that is malformed,
    badly signed or expired with one and the same 401 response, and a
    missing cookie with a 401 of its own; it never mints a token then. *)
Theorem refresh_failure_is_uniform env verify db cookie :
  (truthy_str cookie = false ->
   refreshToken env verify db cookie
   = Sent (json 401 "Unauthorized" "Refresh token not provided"))
  /\ (forall d,
        truthy_str cookie = true ->
        verify (of_opt cookie) (JWT_REFRESH_SECRET env) = VerifyError (jwt_error d) ->
        refreshToken env verify db cookie
        = Sent (json 401 "Unauthorized" "Invalid or expired refresh token")).
Proof.
  split.
  - intros Hc. unfold refreshToken. now rewrite Hc.
  - intros d Hc Hv. unfold refreshToken. rewrite Hc, Hv. now destruct d.
Qed.

Lemma refresh_failure_is_uniform_witness :
  refreshToken default_env toy_verify ∅ (Some "expired")
  = Sent (json 401 "Unauthorized" "Invalid or expired refresh token")
  /\ refreshToken default_env toy_verify ∅ (Some "forged")
     = Sent (json 401 "Unauthorized" "Invalid or expired refresh token").
Proof.
  split.
  - apply (proj2 (refresh_failure_is_uniform default_env toy_verify ∅ (Some "expired"))
             Expired); reflexivity.
  - apply (proj2 (refresh_failure_is_uniform default_env toy_verify ∅ (Some "forged"))
             BadSignature); reflexivity.
Defined.

(** X13.  [refreshToken] does not look at the lock: for an active user
    it mints an access token over the e-mail address and roles of the
    document in the collection, locked or not; on the same collection
    [authenticate] answers 423 while the lock lasts. *)
Theorem refresh_ignores_lock env verify verify' (db : gmap string User) now
    cookie authorization decoded decoded' user until :
  truthy_str cookie = true ->
  verify (of_opt cookie) (JWT_REFRESH_SECRET env) = Decoded decoded ->
  db !! id decoded = Some user ->
  isActive user = true ->
  isLocked user = true ->
  lockUntil user = Some (Fin until) ->
  now < until ->
  truthy_str authorization = true ->
  Security.startsWith (of_opt authorization) "Bearer " = true ->
  verify' (substring_from 7 (of_opt authorization)) (JWT_SECRET env) = Decoded decoded' ->
  id decoded' = id decoded ->
  refreshToken env verify db cookie
  = Minted {| id := _id user; claim_email := email user; claim_roles := roles user |}
  /\ authenticate env verify' db now authorization
     = AuthRespond (json 423 "Account Locked" "Account is temporarily locked").
Proof.
  intros Hc Hv Hdb Ha Hl Hu Hnow Ht Hb Hv' Hid. split.
  - unfold refreshToken. now rewrite Hc, Hv, Hdb, Ha.
  - rewrite AuthFacts.authenticate_bearer, Hv', Hid, Hdb, Ha by assumption.
    unfold isAccountLocked. rewrite Hl, Hu. unfold num_gt.
    now rewrite (proj2 (Z.gtb_lt _ _)) by lia.
Qed.

Lemma refresh_ignores_lock_witness :
  refreshToken default_env toy_verify
    (<["u1" := set_lockUntil (Some (Fin 9000)) (set_isLocked true alice)]> ∅)
    (Some "good")
  = Minted {| id := "u1"; claim_email := "alice@example.org";
              claim_roles := ["APPLICANT"] |}
  /\ authenticate default_env toy_verify
       (<["u1" := set_lockUntil (Some (Fin 9000)) (set_isLocked true alice)]> ∅)
       5000 (Some "Bearer good")
     = AuthRespond (json 423 "Account Locked" "Account is temporarily locked").
Proof.
  apply (refresh_ignores_lock default_env toy_verify toy_verify
           (<["u1" := set_lockUntil (Some (Fin 9000)) (set_isLocked true alice)]> ∅)
           5000 (Some "good") (Some "Bearer good")
           {| id := "u1"; claim_email := "alice@example.org";
              claim_roles := ["APPLICANT"] |}
           {| id := "u1"; claim_email := "alice@example.org";
              claim_roles := ["APPLICANT"] |}
           (set_lockUntil (Some (Fin 9000)) (set_isLocked true alice)) 9000);
    first [reflexivity | lia | apply lookup_insert_eq].
Defined.

End TokenRefreshFacts.

(** ** More on password changes *)

Module PasswordChangeFacts.
Import Js UserModel AuthController.


(** Without a changed password the hook leaves the hash as it is. *)
Lemma pre_save_hash_unchanged env bc now u :
  truthy_str (password u) && isModified "password" u = false ->
  passwordHash (pre_save env bc now u) = passwordHash u.
Proof.
  intros Hno. unfold pre_save, isModified in *.
  destruct (bool_decide ("firstName" ∈ modifiedPaths u)
            || bool_decide ("lastName" ∈ modifiedPaths u));
    cbn [password set_fullName modifiedPaths]; rewrite Hno; reflexivity.
Qed.



(** X15.  A change to the empty password, when the current password is
    right and the history does not match, is answered 200 "Password
    changed successfully" and changes neither the hash nor the history. *)
Theorem empty_new_password_changes_nothing env bc now (u : User) cur :
  comparePassword bc cur u = true ->
  isPasswordUsedBefore bc (Some "") u = false ->
  exists u',
    changePassword env bc now u cur (Some "")
    = (ok200 "Password changed successfully", Some u')
    /\ passwordHash u' = passwordHash u
    /\ passwordSalt u' = passwordSalt u
    /\ passwordHistory u' = passwordHistory u.
Proof.
  intros Hcur Hused. unfold changePassword. rewrite Hcur, Hused. cbn [negb].
  eexists. split; [reflexivity|].
  set (u1 := markModified "password" (set_password (Some "") u)).
  assert (Hno : truthy_str (password u1) && isModified "password" u1 = false)
    by reflexivity.
  unfold save. cbn [passwordHash passwordSalt passwordHistory set_modifiedPaths].
  rewrite (pre_save_hash_unchanged env bc now u1 Hno),
          (PasswordFacts.pre_save_history_unchanged env bc now u1 Hno).
  repeat split.
  unfold pre_save, isModified.
  destruct (bool_decide ("firstName" ∈ modifiedPaths u1)
            || bool_decide ("lastName" ∈ modifiedPaths u1)); reflexivity.
Qed.

Lemma empty_new_password_changes_nothing_witness :
  exists u',
    changePassword default_env toy_bcrypt 9000 alice (Some "correct horse") (Some "")
    = (ok200 "Password changed successfully", Some u')
    /\ passwordHash u' = passwordHash alice
    /\ passwordSalt u' = passwordSalt alice
    /\ passwordHistory u' = passwordHistory alice.
Proof.
  apply (empty_new_password_changes_nothing default_env toy_bcrypt 9000 alice
           (Some "correct horse")); reflexivity.
Defined.

End PasswordChangeFacts.

(** ** The Session model *)

Module SessionFacts.
Import SessionModel.

#[local] Instance moreRecent_total : Total moreRecent.
Proof. intros a b. unfold moreRecent. lia. Qed.

Lemma elem_of_active uid now coll s :
  s ∈ getActiveSessionsForUser uid now coll
  <-> s ∈ coll /\ activeFor uid now s = true.
Proof.
  unfold getActiveSessionsForUser. rewrite merge_sort_Permutation.
  rewrite !list_elem_of_In, filter_In. reflexivity.
Qed.

Lemma filter_active_deactivated uid now coll :
  List.filter (activeFor uid now)
    (map (fun s => if ownedActive uid s then deactivate s else s) coll) = [].
Proof.
  induction coll as [|s coll IH]; [reflexivity|].
  cbn [map List.filter]. rewrite IH.
  unfold ownedActive, activeFor.
  destruct (bool_decide (userId s = Some uid)) eqn:Hu; cbn [andb].
  - destruct (isActive s) eqn:Ha; cbn [deactivate userId isActive].
    + rewrite Hu. reflexivity.
    + rewrite Hu, Ha. reflexivity.
  - rewrite Hu. reflexivity.
Qed.

Lemma filter_active_other uid other now coll :
  other <> uid ->
  List.filter (activeFor other now)
    (map (fun s => if ownedActive uid s then deactivate s else s) coll)
  = List.filter (activeFor other now) coll.
Proof.
  intros Hother. induction coll as [|s coll IH]; [reflexivity|].
  cbn [map List.filter]. rewrite IH.
  unfold ownedActive, activeFor.
  destruct (bool_decide_reflect (userId s = Some uid)) as [Hu|Hu]; cbn [andb];
    [|reflexivity].
  assert (Hno : bool_decide (userId s = Some other) = false)
    by (apply bool_decide_eq_false; congruence).
  destruct (isActive s); cbn [deactivate userId isActive]; now rewrite Hno.
Qed.

Lemma filter_length_le {A} (f g : A -> bool) (l : list A) :
  (forall x, f x = true -> g x = true) ->
  (length (List.filter f l) <= length (List.filter g l))%nat.
Proof.
  intros Himp. induction l as [|x l IH]; [reflexivity|]. cbn [List.filter].
  destruct (f x) eqn:Hf.
  - rewrite (Himp x Hf). cbn [length]. lia.
  - destruct (g x); cbn [length]; lia.
Qed.

(** X16.  After [invalidateUserSessions] for a user, that user has no
    active session left and every other user has the active sessions of
    before; the count returned is at least the number of sessions the
    user had active and unexpired, and a second call modifies none. *)
Theorem invalidate_user_sessions uid now coll :
  getActiveSessionsForUser uid now (snd (invalidateUserSessions uid coll)) = []
  /\ (forall other,
        other <> uid ->
        getActiveSessionsForUser other now (snd (invalidateUserSessions uid coll))
        = getActiveSessionsForUser other now coll)
  /\ (length (getActiveSessionsForUser uid now coll)
      <= fst (invalidateUserSessions uid coll))%nat
  /\ fst (invalidateUserSessions uid (snd (invalidateUserSessions uid coll))) = 0%nat.
Proof.
  unfold invalidateUserSessions. cbn [fst snd]. repeat split.
  - unfold getActiveSessionsForUser. now rewrite filter_active_deactivated.
  - intros other Hother. unfold getActiveSessionsForUser.
    now rewrite filter_active_other.
  - unfold getActiveSessionsForUser.
    rewrite (Permutation_length (merge_sort_Permutation _ _)).
    apply filter_length_le. intros s. unfold activeFor, ownedActive.
    destruct (bool_decide (userId s = Some uid)), (isActive s); cbn; congruence.
  - induction coll as [|s coll IH]; [reflexivity|].
    cbn [map List.filter]. unfold ownedActive at 1.
    destruct (ownedActive uid s) eqn:Ho.
    + cbn [deactivate userId isActive]. now rewrite andb_false_r.
    + unfold ownedActive in Ho. now rewrite Ho.
Qed.

Lemma invalidate_user_sessions_witness :
  getActiveSessionsForUser "u2" 50
    (snd (invalidateUserSessions "u1"
            [session_of "a" "u1" 100 10 true; session_of "b" "u2" 100 20 true]))
  = getActiveSessionsForUser "u2" 50
      [session_of "a" "u1" 100 10 true; session_of "b" "u2" 100 20 true].
Proof.
  apply (proj1 (proj2 (invalidate_user_sessions "u1" 50
                         [session_of "a" "u1" 100 10 true;
                          session_of "b" "u2" 100 20 true])) "u2").
  discriminate.
Defined.

Lemma filter_active_cleanup uid now now' coll :
  now <= now' ->
  List.filter (activeFor uid now')
    (List.filter (fun s => negb (expires s <? now)) coll)
  = List.filter (activeFor uid now') coll.
Proof.
  intros Hle. induction coll as [|s coll IH]; [reflexivity|].
  cbn [List.filter].
  destruct (expires s <? now) eqn:He; cbn [negb List.filter]; rewrite IH.
  - apply Z.ltb_lt in He.
    assert (Hno : activeFor uid now' s = false).
    { unfold activeFor. rewrite Z.gtb_ltb, (proj2 (Z.ltb_ge _ _)) by lia.
      now rewrite andb_false_r. }
    now rewrite Hno.
  - reflexivity.
Qed.

(** X17.  [cleanupExpiredSessions] deletes exactly the sessions whose
    expiry lies before the given time and reports their number; it
    changes no user's list of active sessions at that time or later,
    and run again at once it deletes nothing. *)
Theorem cleanup_expired_sessions now coll :
  (forall s, s ∈ snd (cleanupExpiredSessions now coll)
             <-> s ∈ coll /\ now <= expires s)
  /\ (fst (cleanupExpiredSessions now coll)
      + length (snd (cleanupExpiredSessions now coll)) = length coll)%nat
  /\ (forall uid now',
        now <= now' ->
        getActiveSessionsForUser uid now' (snd (cleanupExpiredSessions now coll))
        = getActiveSessionsForUser uid now' coll)
  /\ fst (cleanupExpiredSessions now (snd (cleanupExpiredSessions now coll))) = 0%nat.
Proof.
  unfold cleanupExpiredSessions. cbn [fst snd].
  split; [|split; [|split]].
  - intros s. rewrite !list_elem_of_In, filter_In, negb_true_iff, Z.ltb_ge.
    reflexivity.
  - induction coll as [|s coll IH]; [reflexivity|]. cbn [List.filter].
    destruct (expires s <? now); cbn [negb length]; lia.
  - intros uid now' Hle. unfold getActiveSessionsForUser.
    now rewrite filter_active_cleanup.
  - induction coll as [|s coll IH]; [reflexivity|]. cbn [List.filter].
    destruct (expires s <? now) eqn:He; cbn [negb]; [exact IH|].
    cbn [List.filter]. now rewrite He.
Qed.

Lemma cleanup_expired_sessions_witness :
  getActiveSessionsForUser "u1" 60
    (snd (cleanupExpiredSessions 50
            [session_of "a" "u1" 40 10 true; session_of "b" "u1" 100 20 true]))
  = getActiveSessionsForUser "u1" 60
      [session_of "a" "u1" 40 10 true; session_of "b" "u1" 100 20 true].
Proof.
  apply (proj1 (proj2 (proj2 (cleanup_expired_sessions 50
                  [session_of "a" "u1" 40 10 true; session_of "b" "u1" 100 20 true])))
           "u1" 60).
  lia.
Defined.

(** X18.  [getActiveSessionsForUser] returns exactly the sessions of the
    collection that belong to the user, are active and expire after the
    given time, each as often as it is stored, most recently accessed
    first. *)
Theorem active_sessions_listing uid now coll :
  (forall s,
     s ∈ getActiveSessionsForUser uid now coll
     <-> s ∈ coll /\ userId s = Some uid /\ isActive s = true /\ now < expires s)
  /\ getActiveSessionsForUser uid now coll ≡ₚ List.filter (activeFor uid now) coll
  /\ Sorted moreRecent (getActiveSessionsForUser uid now coll).
Proof.
  split; [|split].
  - intros s. rewrite elem_of_active. unfold activeFor.
    rewrite !andb_true_iff, bool_decide_eq_true, Z.gtb_ltb, Z.ltb_lt. tauto.
  - unfold getActiveSessionsForUser. apply merge_sort_Permutation.
  - unfold getActiveSessionsForUser. apply Sorted_merge_sort, _.
Qed.

End SessionFacts.

(** ** The input sanitizers *)

Module SanitizerFacts.
Import Js Serialisation Sanitizers.

(** Induction on a value, with the values inside arrays and objects. *)
Lemma JsVal_nested_ind (P : JsVal -> Prop) :
  P JNull -> (forall b, P (JBool b)) -> (forall z, P (JNum z)) ->
  (forall s, P (JStr s)) ->
  (forall l, Forall P l -> P (JArr l)) ->
  (forall o, Forall (fun p => P (snd p)) o -> P (JObj o)) ->
  forall v, P v.
Proof.
  intros Hnull Hbool Hnum Hstr Harr Hobj.
  fix IH 1. intros [| b | z | s | l | o].
  - exact Hnull.
  - exact (Hbool b).
  - exact (Hnum z).
  - exact (Hstr s).
  - apply Harr. induction l as [|x l IHl]; constructor; [exact (IH x) | exact IHl].
  - apply Hobj. induction o as [|[k x] o IHo]; constructor;
      [exact (IH x) | exact IHo].
Qed.

Lemma set_own_keys k v o k' :
  k' ∈ map fst (set_own k v o) -> k' = k \/ k' ∈ map fst o.
Proof.
  induction o as [|[k0 v0] o IH]; cbn [set_own map fst].
  - intros H. apply list_elem_of_singleton in H. now left.
  - destruct (String.eqb_spec k0 k) as [->|Hne]; cbn [map fst]; intros H;
      apply elem_of_cons in H as [->|H].
    + now left.
    + right. now apply elem_of_cons; right.
    + right. now apply elem_of_cons; left.
    + destruct (IH H) as [->|Hin]; [now left|].
      right. now apply elem_of_cons; right.
Qed.

Lemma assign_keys k v o k' :
  k' ∈ map fst (assign k v o) -> k' = k \/ k' ∈ map fst o.
Proof.
  unfold assign. destruct (String.eqb k "__proto__"); [now right|].
  apply set_own_keys.
Qed.

Lemma safe_char c :
  let c' := if Ascii.eqb c "$" || Ascii.eqb c "." then "_"%char else c in
  Ascii.eqb c' "." = false /\ Ascii.eqb c' "$" = false.
Proof. destruct c as [[] [] [] [] [] [] [] []]; split; reflexivity. Qed.

Lemma startsWith_dollar c r :
  Security.startsWith (String c r) "$" = Ascii.eqb c "$".
Proof.
  unfold Security.startsWith. cbn [String.prefix].
  destruct (ascii_dec "$" c) as [<-|Hne];
    [now rewrite Ascii.eqb_refl; destruct r|].
  symmetry. apply Ascii.eqb_neq. congruence.
Qed.

Lemma safeKeyOf_no_dot key : has_char "." (safeKeyOf key) = false.
Proof.
  induction key as [|c r IH]; [reflexivity|]. cbn [safeKeyOf has_char].
  rewrite IH. now rewrite (proj1 (safe_char c)).
Qed.

Lemma safeKeyOf_safe key : dangerousKey (safeKeyOf key) = false.
Proof.
  unfold dangerousKey. rewrite safeKeyOf_no_dot, orb_false_r.
  destruct key as [|c r]; [reflexivity|]. cbn [safeKeyOf].
  rewrite startsWith_dollar. apply (proj2 (safe_char c)).
Qed.

(** The loop of [sanitizeMongoQuery] adds no dangerous key. *)
Lemma mongo_loop_keys_safe (o : Obj) : forall acc,
  (forall k, k ∈ map fst acc -> dangerousKey k = false) ->
  forall k,
    k ∈ map fst
          (fold_left
             (fun (sanitized : Obj) (p : string * JsVal) =>
                let '(key, x) := p in
                if dangerousKey key then assign (safeKeyOf key) x sanitized
                else if isObject x then assign key (sanitizeMongoQuery x) sanitized
                else assign key x sanitized) o acc) ->
    dangerousKey k = false.
Proof.
  induction o as [|[key x] o IH]; intros acc Hacc; [exact Hacc|].
  cbn [fold_left]. apply IH. intros k Hk.
  destruct (dangerousKey key) eqn:Hd.
  - apply assign_keys in Hk as [->|Hk]; [apply safeKeyOf_safe | now apply Hacc].
  - destruct (isObject x); apply assign_keys in Hk as [->|Hk];
      first [exact Hd | now apply Hacc].
Qed.

(** Each key the loop adds is a key of the input or its replacement. *)
Lemma mongo_loop_keys_from (o : Obj) : forall acc k,
  k ∈ map fst
        (fold_left
           (fun (sanitized : Obj) (p : string * JsVal) =>
              let '(key, x) := p in
              if dangerousKey key then assign (safeKeyOf key) x sanitized
              else if isObject x then assign key (sanitizeMongoQuery x) sanitized
              else assign key x sanitized) o acc) ->
  k ∈ map fst acc
  \/ exists k0, k0 ∈ map fst o
                /\ (k = k0 \/ (dangerousKey k0 = true /\ k = safeKeyOf k0)).
Proof.
  induction o as [|[key x] o IH]; intros acc k Hk; [now left|].
  cbn [fold_left] in Hk. apply IH in Hk as [Hk|(k0 & Hk0 & Hcase)].
  - destruct (dangerousKey key) eqn:Hd.
    + apply assign_keys in Hk as [->|Hk]; [|now left].
      right. exists key. split; [cbn; now apply elem_of_cons; left | now right].
    + assert (Hk' : k = key \/ k ∈ map fst acc)
        by (destruct (isObject x); now apply assign_keys in Hk).
      destruct Hk' as [->|Hk']; [|now left].
      right. exists key. split; [cbn; now apply elem_of_cons; left | now left].
  - right. exists k0. split; [cbn; now apply elem_of_cons; right | exact Hcase].
Qed.

(** X19.  No property of an object that [sanitizeMongoQuery] returns has
    a key that starts with a dollar sign or holds a dot; and each of
    its keys is a key of the input or the replacement of one. *)
Theorem sanitized_keys_are_safe (o : Obj) :
  exists o',
    sanitizeMongoQuery (JObj o) = JObj o'
    /\ (forall k, k ∈ map fst o' -> dangerousKey k = false)
    /\ (forall k, k ∈ map fst o' ->
                  exists k0, k0 ∈ map fst o
                             /\ (k = k0 \/ (dangerousKey k0 = true /\ k = safeKeyOf k0))).
Proof.
  cbn [sanitizeMongoQuery]. eexists. split; [reflexivity|]. split.
  - apply mongo_loop_keys_safe. intros k Hk. now apply elem_of_nil in Hk.
  - intros k Hk. apply mongo_loop_keys_from in Hk as [Hk|Hk];
      [now apply elem_of_nil in Hk | exact Hk].
Qed.

Lemma sanitized_keys_are_safe_example :
  sanitizeMongoQuery
    (JObj [("$where", JStr "1"); ("profile.name", JStr "x"); ("age", JNum 3)])
  = JObj [("_where", JStr "1"); ("profile_name", JStr "x"); ("age", JNum 3)].
Proof. reflexivity. Qed.

Lemma set_own_fresh k v o :
  k ∉ map fst o -> set_own k v o = (o ++ [(k, v)])%list.
Proof.
  induction o as [|[k0 v0] o IH]; cbn [set_own map fst app]; intros Hk;
    [reflexivity|].
  apply not_elem_of_cons in Hk as [Hne Hk].
  destruct (String.eqb_spec k0 k) as [->|_]; [contradiction|].
  now rewrite IH.
Qed.

Lemma assign_fresh k v o :
  k <> "__proto__" -> k ∉ map fst o -> assign k v o = (o ++ [(k, v)])%list.
Proof.
  intros Hp Hk. unfold assign.
  destruct (String.eqb_spec k "__proto__") as [->|_]; [contradiction|].
  now apply set_own_fresh.
Qed.

Lemma fold_conj_Forall {A} (Q : A -> Prop) (l : list A) :
  fold_right (fun x rest => Q x /\ rest) True l <-> Forall Q l.
Proof.
  induction l as [|x l IH]; cbn [fold_right].
  - split; [constructor | trivial].
  - rewrite IH. split.
    + intros [Hx Hl]. now constructor.
    + intros H. inversion H; subst. auto.
Qed.

(** On harmless properties with fresh keys the loop adds each property
    as it is. *)
Lemma sanitize_loop_identity (o : Obj) : forall acc,
  NoDup (map fst (acc ++ o)) ->
  "__proto__" ∉ map fst o ->
  Forall (fun p => dangerousKey (fst p) = false) o ->
  Forall (fun p => sanitizeMongoQuery (snd p) = snd p) o ->
  fold_left
    (fun (sanitized : Obj) (p : string * JsVal) =>
       let '(key, x) := p in
       if dangerousKey key then assign (safeKeyOf key) x sanitized
       else if isObject x then assign key (sanitizeMongoQuery x) sanitized
       else assign key x sanitized) o acc
  = (acc ++ o)%list.
Proof.
  induction o as [|[key x] o IH]; intros acc Hnd Hproto Hsafe Hid;
    cbn [fold_left]; [now rewrite app_nil_r|].
  inversion Hsafe as [|? ? Hkey Hsafe']; subst.
  inversion Hid as [|? ? Hx Hid']; subst. cbn [fst snd] in *.
  cbn [map fst] in Hproto. apply not_elem_of_cons in Hproto as [Hne Hproto].
  assert (Hfresh : key ∉ map fst acc).
  { rewrite map_app in Hnd. apply NoDup_app in Hnd as (_ & Hdisj & _).
    intros Hin. apply (Hdisj key Hin). cbn. now apply elem_of_cons; left. }
  rewrite Hkey.
  assert (Hstep : (if isObject x then assign key (sanitizeMongoQuery x) acc
                   else assign key x acc) = (acc ++ [(key, x)])%list).
  { destruct (isObject x); [rewrite Hx|]; apply assign_fresh; auto. }
  rewrite Hstep, IH; try assumption.
  - now rewrite <- app_assoc.
  - now rewrite <- app_assoc.
Qed.

(** X20.  [sanitizeMongoQuery] gives back unchanged every value in which
    no key is dangerous, no key is [__proto__] and no object has a key
    twice. *)
Theorem sanitize_harmless_unchanged (v : JsVal) :
  plain v -> harmless v -> sanitizeMongoQuery v = v.
Proof.
  induction v as [| b | z | s | l IH | o IH] using JsVal_nested_ind;
    try reflexivity; intros Hplain Hharmless.
  - cbn [sanitizeMongoQuery]. f_equal.
    cbn [plain harmless] in *. apply fold_conj_Forall in Hplain, Hharmless.
    induction l as [|x l IHl]; [reflexivity|].
    inversion IH; inversion Hplain; inversion Hharmless; subst.
    cbn [map]. rewrite IHl by assumption. f_equal.
    destruct (isObject x); auto.
  - cbn [sanitizeMongoQuery]. f_equal.
    cbn [plain harmless] in *. destruct Hplain as (Hnd & Hproto & Hplain).
    apply fold_conj_Forall in Hplain.
    assert (Hsafe : Forall (fun p => dangerousKey (fst p) = false) o
                    /\ Forall (fun p => harmless (snd p)) o).
    { clear -Hharmless. induction o as [|p o IHo]; [split; constructor|].
      cbn [fold_right] in Hharmless. destruct Hharmless as (Hk & Hv & Hrest).
      destruct (IHo Hrest). split; now constructor. }
    destruct Hsafe as [Hsafe Hharm].
    apply (sanitize_loop_identity o []); try assumption.
    clear -IH Hplain Hharm. induction o as [|p o IHo]; [constructor|].
    inversion IH; inversion Hplain; inversion Hharm; subst.
    constructor; auto.
Qed.

Lemma sanitize_harmless_unchanged_witness :
  sanitizeMongoQuery
    (JObj [("name", JStr "x"); ("tags", JArr [JStr "a"; JObj [("n", JNum 1)]])])
  = JObj [("name", JStr "x"); ("tags", JArr [JStr "a"; JObj [("n", JNum 1)]])].
Proof.
  apply (sanitize_harmless_unchanged
           (JObj [("name", JStr "x");
                  ("tags", JArr [JStr "a"; JObj [("n", JNum 1)]])])).
  - cbn. repeat split; apply (bool_decide_unpack _); vm_compute; exact I.
  - cbn. repeat split.
Defined.

Lemma get_set_own k v o : get_own k (set_own k v o) = Some v.
Proof.
  induction o as [|[k0 v0] o IH]; cbn [set_own get_own].
  - now rewrite String.eqb_refl.
  - destruct (String.eqb k0 k) eqn:He; cbn [get_own]; now rewrite He.
Qed.

(** X21.  Under a key that it renames, [sanitizeMongoQuery] keeps the
    value as it came, without looking inside: operators nested there
    stay, and running the sanitizer on its own output can change it
    again. *)
Theorem renamed_key_keeps_its_value :
  (forall (o : Obj) key x,
     dangerousKey key = true ->
     safeKeyOf key <> "__proto__" ->
     exists o',
       sanitizeMongoQuery (JObj (o ++ [(key, x)])) = JObj o'
       /\ get_own (safeKeyOf key) o' = Some x)
  /\ (exists v,
        sanitizeMongoQuery (sanitizeMongoQuery v) <> sanitizeMongoQuery v).
Proof.
  split.
  - intros o key x Hd Hproto. cbn [sanitizeMongoQuery]. eexists.
    split; [reflexivity|].
    rewrite fold_left_app. cbn [fold_left]. rewrite Hd.
    unfold assign. destruct (String.eqb_spec (safeKeyOf key) "__proto__");
      [contradiction|].
    apply get_set_own.
  - exists (JObj [("$or", JObj [("$gt", JNum 1)])]). discriminate.
Qed.

Lemma renamed_key_keeps_its_value_witness :
  exists o',
    sanitizeMongoQuery
      (JObj ([("name", JStr "x")] ++ [("$where", JObj [("$gt", JNum 1)])]))
    = JObj o'
    /\ get_own (safeKeyOf "$where") o' = Some (JObj [("$gt", JNum 1)]).
Proof.
  apply (proj1 renamed_key_keeps_its_value [("name", JStr "x")] "$where"
           (JObj [("$gt", JNum 1)])); [reflexivity | discriminate].
Defined.

(** The loop of [sanitizeObject] keeps a property of its values. *)
Lemma assign_Forall (Q : JsVal -> Prop) k v (o : Obj) :
  Q v -> Forall (fun p => Q (snd p)) o ->
  Forall (fun p => Q (snd p)) (assign k v o).
Proof.
  intros Hv Ho. unfold assign. destruct (String.eqb k "__proto__"); [exact Ho|].
  induction Ho as [|[k0 v0] o Hp Ho IH]; cbn [set_own].
  - now repeat constructor.
  - destruct (String.eqb k0 k); constructor; assumption.
Qed.

(** X22.  In what [sanitizeObject] returns for an object or an array,
    every string value, at any depth, has gone through [sanitizeHtml]. *)
Theorem sanitizeObject_cleans_every_string (sanitizeHtml : string -> string)
    (v : JsVal) :
  isObject v = true ->
  all_strings (fun s => exists s0, s = sanitizeHtml s0)
    (sanitizeObject sanitizeHtml v).
Proof.
  set (P := fun s => exists s0, s = sanitizeHtml s0).
  assert (Hleaf : forall x,
    (isObject x = true -> all_strings P (sanitizeObject sanitizeHtml x)) ->
    all_strings P match x with
                  | JStr s => JStr (sanitizeHtml s)
                  | JArr _ | JObj _ | JNull => sanitizeObject sanitizeHtml x
                  | _ => x
                  end).
  { intros x Hx. destruct x as [| b | z | s | l | o]; try exact I.
    - now exists s.
    - now apply Hx.
    - now apply Hx. }
  induction v as [| b | z | s | l IH | o IH] using JsVal_nested_ind;
    try discriminate; intros _.
  - cbn [sanitizeObject all_strings]. apply fold_conj_Forall.
    induction IH as [|x l Hx _ IHl]; cbn [map]; constructor; [|exact IHl].
    now apply Hleaf.
  - cbn [sanitizeObject all_strings]. apply fold_conj_Forall.
    assert (Hinv : forall acc,
      Forall (fun p => all_strings P (snd p)) acc ->
      Forall (fun p => all_strings P (snd p))
        (fold_left
           (fun (sanitized : Obj) (p : string * JsVal) =>
              let '(key, x) := p in
              match x with
              | JStr s => assign key (JStr (sanitizeHtml s)) sanitized
              | JArr _ | JObj _ | JNull =>
                  assign key (sanitizeObject sanitizeHtml x) sanitized
              | _ => assign key x sanitized
              end) o acc)).
    { induction IH as [|[key x] o Hx _ IHo]; intros acc Hacc; [exact Hacc|].
      cbn [fold_left]. apply IHo. cbn [snd] in Hx.
      pose proof (Hleaf x Hx) as Hl.
      destruct x; apply assign_Forall; assumption. }
    apply Hinv. constructor.
Qed.

Lemma sanitizeObject_cleans_every_string_witness :
  all_strings (fun s => exists s0, s = drop_angle_brackets s0)
    (sanitizeObject drop_angle_brackets
       (JObj [("bio", JStr "<b>hi</b>"); ("tags", JArr [JStr "<i>"; JNum 1])])).
Proof.
  apply (sanitizeObject_cleans_every_string drop_angle_brackets
           (JObj [("bio", JStr "<b>hi</b>"); ("tags", JArr [JStr "<i>"; JNum 1])])).
  reflexivity.
Defined.

(** On an object with no key twice and no key [__proto__] the loop of
    [sanitizeObject] is a map over the properties. *)
Lemma sanitizeObject_loop_map f (o : Obj) : forall acc,
  NoDup (map fst (acc ++ o)) ->
  "__proto__" ∉ map fst o ->
  fold_left
    (fun (sanitized : Obj) (p : string * JsVal) =>
       let '(key, x) := p in
       match x with
       | JStr s => assign key (JStr (f s)) sanitized
       | JArr _ | JObj _ | JNull => assign key (sanitizeObject f x) sanitized
       | _ => assign key x sanitized
       end) o acc
  = (acc ++ map (fun p => (fst p, cleaned f (snd p))) o)%list.
Proof.
  induction o as [|[key x] o IH]; intros acc Hnd Hproto; cbn [fold_left map];
    [now rewrite app_nil_r|].
  cbn [map fst] in Hproto. apply not_elem_of_cons in Hproto as [Hne Hproto].
  assert (Hfresh : key ∉ map fst acc).
  { rewrite map_app in Hnd. apply NoDup_app in Hnd as (_ & Hdisj & _).
    intros Hin. apply (Hdisj key Hin). cbn. now apply elem_of_cons; left. }
  assert (Hstep : match x with
                  | JStr s => assign key (JStr (f s)) acc
                  | JArr _ | JObj _ | JNull => assign key (sanitizeObject f x) acc
                  | _ => assign key x acc
                  end = (acc ++ [(key, cleaned f x)])%list).
  { destruct x; apply assign_fresh; auto. }
  rewrite Hstep, IH; cbn [fst snd].
  - now rewrite <- app_assoc.
  - rewrite <- app_assoc. cbn [app]. rewrite !map_app in *. cbn [map fst] in *.
    exact Hnd.
  - exact Hproto.
Qed.

Lemma sanitizeObject_plain_object f (o : Obj) :
  NoDup (map fst o) -> "__proto__" ∉ map fst o ->
  sanitizeObject f (JObj o) = JObj (map (fun p => (fst p, cleaned f (snd p))) o).
Proof.
  intros Hnd Hproto. cbn [sanitizeObject]. f_equal.
  now rewrite (sanitizeObject_loop_map f o []).
Qed.

Lemma map_fst_cleaned f (o : Obj) :
  map fst (map (fun p : string * JsVal => (fst p, cleaned f (snd p))) o) = map fst o.
Proof. rewrite map_map. now apply map_ext. Qed.

(** X23.  On a value in which no object has a key twice or a key
    [__proto__], [sanitizeObject] keeps every key in its place, and
    running it a second time changes nothing when [sanitizeHtml] itself
    has that property. *)
Theorem sanitizeObject_keeps_shape (sanitizeHtml : string -> string) (v : JsVal) :
  plain v ->
  plain (sanitizeObject sanitizeHtml v)
  /\ (forall o, v = JObj o ->
                exists o', sanitizeObject sanitizeHtml v = JObj o'
                           /\ map fst o' = map fst o)
  /\ ((forall s, sanitizeHtml (sanitizeHtml s) = sanitizeHtml s) ->
      sanitizeObject sanitizeHtml (sanitizeObject sanitizeHtml v)
      = sanitizeObject sanitizeHtml v).
Proof.
  set (f := sanitizeHtml).
  assert (Hmain : forall v, plain v ->
    plain (sanitizeObject f v)
    /\ ((forall s, f (f s) = f s) ->
        sanitizeObject f (sanitizeObject f v) = sanitizeObject f v)).
  { clear v. intros v.
    induction v as [| b | z | s | l IH | o IH] using JsVal_nested_ind;
      intros Hplain; try (split; [exact I | reflexivity]).
    - (* arrays *)
      cbn [plain] in Hplain. apply fold_conj_Forall in Hplain.
      assert (Hel : Forall (fun x => plain (cleaned f x)
                      /\ ((forall s, f (f s) = f s) ->
                          cleaned f (cleaned f x) = cleaned f x)) l).
      { clear -IH Hplain. induction l as [|x l IHl]; [constructor|].
        inversion IH as [|? ? Hx IH']; inversion Hplain as [|? ? Hp Hplain']; subst.
        constructor; [|now apply IHl].
        destruct (Hx Hp) as [Hx1 Hx2].
        destruct x as [| b | z | s | l0 | o0]; cbn [cleaned];
          try (split; [exact I | reflexivity]).
        - split; [exact I|]. intros Hf. now rewrite Hf.
        - split; [exact Hx1|]. intros Hf. specialize (Hx2 Hf).
          cbn [sanitizeObject cleaned] in *. exact Hx2.
        - split; [exact Hx1|]. intros Hf. specialize (Hx2 Hf).
          destruct (sanitizeObject f (JObj o0)) eqn:Hs;
            cbn [sanitizeObject] in Hs; try discriminate.
          cbn [cleaned]. exact Hx2. }
      change (sanitizeObject f (JArr l)) with (JArr (map (cleaned f) l)).
      split.
      + cbn [plain]. apply fold_conj_Forall.
        clear -Hel. induction Hel as [|x l [Hx _] _ IHl]; cbn [map]; now constructor.
      + intros Hf.
        change (sanitizeObject f (JArr (map (cleaned f) l)))
          with (JArr (map (cleaned f) (map (cleaned f) l))).
        f_equal. rewrite map_map.
        clear -Hel Hf. induction Hel as [|x l [_ Hx] _ IHl]; cbn [map];
          [reflexivity|]. now rewrite (Hx Hf), IHl.
    - (* objects *)
      cbn [plain] in Hplain. destruct Hplain as (Hnd & Hproto & Hplain).
      apply fold_conj_Forall in Hplain.
      assert (Hel : Forall (fun p : string * JsVal => plain (cleaned f (snd p))
                      /\ ((forall s, f (f s) = f s) ->
                          cleaned f (cleaned f (snd p)) = cleaned f (snd p))) o).
      { clear -IH Hplain. induction o as [|[k x] o IHo]; [constructor|].
        inversion IH as [|? ? Hx IH']; inversion Hplain as [|? ? Hp Hplain']; subst.
        constructor; [|now apply IHo]. cbn [snd] in *.
        destruct (Hx Hp) as [Hx1 Hx2].
        destruct x as [| b | z | s | l0 | o0]; cbn [cleaned];
          try (split; [exact I | reflexivity]).
        - split; [exact I|]. intros Hf. now rewrite Hf.
        - split; [exact Hx1|]. intros Hf. specialize (Hx2 Hf).
          cbn [sanitizeObject cleaned] in *. exact Hx2.
        - split; [exact Hx1|]. intros Hf. specialize (Hx2 Hf).
          destruct (sanitizeObject f (JObj o0)) eqn:Hs;
            cbn [sanitizeObject] in Hs; try discriminate.
          cbn [cleaned]. exact Hx2. }
      rewrite (sanitizeObject_plain_object f o Hnd Hproto).
      assert (Hnd' : NoDup (map fst (map (fun p : string * JsVal =>
                                            (fst p, cleaned f (snd p))) o)))
        by now rewrite map_fst_cleaned.
      assert (Hproto' : "__proto__" ∉ map fst (map (fun p : string * JsVal =>
                                            (fst p, cleaned f (snd p))) o))
        by now rewrite map_fst_cleaned.
      split.
      + cbn [plain]. repeat split; try assumption. apply fold_conj_Forall.
        clear -Hel. induction Hel as [|p o [Hp _] _ IHo]; cbn [map]; now constructor.
      + intros Hf. rewrite (sanitizeObject_plain_object f _ Hnd' Hproto').
        f_equal. rewrite map_map. apply map_ext_Forall.
        eapply Forall_impl; [exact Hel|].
        intros p [_ Hp]. cbn [fst snd]. now rewrite (Hp Hf). }
  intros Hplain. destruct (Hmain v Hplain) as [Hp Hidem].
  split; [exact Hp|]. split; [|exact Hidem].
  intros o ->. cbn [plain] in Hplain. destruct Hplain as (Hnd & Hproto & _).
  rewrite (sanitizeObject_plain_object f o Hnd Hproto).
  eexists. split; [reflexivity | apply map_fst_cleaned].
Qed.

Lemma sanitizeObject_keeps_shape_witness :
  plain (sanitizeObject drop_angle_brackets
           (JObj [("bio", JStr "<b>hi</b>"); ("tags", JArr [JStr "<i>"; JNum 1])]))
  /\ (forall o,
        JObj [("bio", JStr "<b>hi</b>"); ("tags", JArr [JStr "<i>"; JNum 1])] = JObj o ->
        exists o',
          sanitizeObject drop_angle_brackets
            (JObj [("bio", JStr "<b>hi</b>"); ("tags", JArr [JStr "<i>"; JNum 1])])
          = JObj o'
          /\ map fst o' = map fst o)
  /\ ((forall s, drop_angle_brackets (drop_angle_brackets s) = drop_angle_brackets s) ->
      sanitizeObject drop_angle_brackets
        (sanitizeObject drop_angle_brackets
           (JObj [("bio", JStr "<b>hi</b>"); ("tags", JArr [JStr "<i>"; JNum 1])]))
      = sanitizeObject drop_angle_brackets
          (JObj [("bio", JStr "<b>hi</b>"); ("tags", JArr [JStr "<i>"; JNum 1])])).
Proof.
  apply (sanitizeObject_keeps_shape drop_angle_brackets
           (JObj [("bio", JStr "<b>hi</b>"); ("tags", JArr [JStr "<i>"; JNum 1])])).
  cbn. repeat split; apply (bool_decide_unpack _); vm_compute; exact I.
Defined.

(** The loop of [sanitizeObject] adds no key of its own. *)
Lemma xss_loop_keys f (o : Obj) : forall acc k,
  k ∈ map fst
        (fold_left
           (fun (sanitized : Obj) (p : string * JsVal) =>
              let '(key, x) := p in
              match x with
              | JStr s => assign key (JStr (f s)) sanitized
              | JArr _ | JObj _ | JNull => assign key (sanitizeObject f x) sanitized
              | _ => assign key x sanitized
              end) o acc) ->
  k ∈ map fst acc \/ k ∈ map fst o.
Proof.
  induction o as [|[key x] o IH]; intros acc k Hk; [now left|].
  cbn [fold_left] in Hk. apply IH in Hk as [Hk|Hk].
  - assert (Hk' : k = key \/ k ∈ map fst acc)
      by (destruct x; now apply assign_keys in Hk).
    destruct Hk' as [->|Hk']; [|now left].
    right. cbn. now apply elem_of_cons; left.
  - right. cbn. now apply elem_of_cons; right.
Qed.

(** X26.  Run one after the other as the application mounts them,
    [sanitizeMongoQuery] and then [sanitizeObject], the two sanitizers
    return for an object an object none of whose keys starts with a
    dollar sign or holds a dot. *)
Theorem sanitizers_in_sequence (sanitizeHtml : string -> string) (o : Obj) :
  exists o',
    sanitizeObject sanitizeHtml (sanitizeMongoQuery (JObj o)) = JObj o'
    /\ forall k, k ∈ map fst o' -> dangerousKey k = false.
Proof.
  cbn [sanitizeMongoQuery sanitizeObject]. eexists. split; [reflexivity|].
  intros k Hk. apply xss_loop_keys in Hk as [Hk|Hk];
    [now apply elem_of_nil in Hk|].
  revert k Hk. apply mongo_loop_keys_safe.
  intros k Hk. now apply elem_of_nil in Hk.
Qed.

End SanitizerFacts.

(** ** The redaction of log entries *)

Module RedactionFacts.
Import Js Serialisation LogRedaction.

Lemma pretty_N_char_digit x : digit_head (String (pretty_N_char x) "").
Proof. unfold pretty_N_char. repeat case_match; reflexivity. Qed.

Lemma pretty_N_go_digit_head x : forall s,
  digit_head s -> digit_head (pretty_N_go x s).
Proof.
  induction (N.lt_wf_0 x) as [x _ IH]; intros s Hs.
  assert (x = 0 \/ 0 < x)%N as [->|Hpos] by lia.
  - now rewrite pretty_N_go_0.
  - rewrite pretty_N_go_step by assumption. apply IH.
    + now apply N.div_lt.
    + apply (pretty_N_char_digit (x `mod` 10)).
Qed.

Lemma pretty_nat_digit_head (i : nat) : digit_head (pretty i).
Proof.
  unfold pretty, pretty_nat, pretty, pretty_N.
  destruct (decide (N.of_nat i = 0%N)) as [_|Hne]; [reflexivity|].
  rewrite pretty_N_go_step by lia. apply pretty_N_go_digit_head.
  apply (pretty_N_char_digit (N.of_nat i `mod` 10)).
Qed.

Lemma digit_head_not_sensitive k : digit_head k -> sensitive k = false.
Proof.
  destruct k as [|c r]; [contradiction|]. cbn [digit_head]. intros Hc.
  destruct c as [[] [] [] [] [] [] [] []]; try discriminate Hc; reflexivity.
Qed.

Lemma indexKeys_not_sensitive n : Forall (fun k => sensitive k = false) (indexKeys n).
Proof.
  unfold indexKeys. apply Forall_map, Forall_forall. intros i _.
  apply digit_head_not_sensitive, pretty_nat_digit_head.
Qed.

Lemma redactObject_object (o : Obj) :
  redactObject (JObj o)
  = JObj (map (fun p => (fst p, if sensitive (fst p) then JStr "[REDACTED]"
                                else redactedValue (snd p))) o).
Proof.
  cbn [redactObject]. f_equal. apply map_ext. now intros [k x].
Qed.

Lemma redactObject_array (l : list JsVal) :
  redactObject (JArr l)
  = JObj (combine (indexKeys (length l)) (map redactedValue l)).
Proof. reflexivity. Qed.

Lemma map_combine_not_sensitive (ks : list string) (xs : list JsVal) :
  Forall (fun k => sensitive k = false) ks ->
  map (fun p : string * JsVal =>
         (fst p, if sensitive (fst p) then JStr "[REDACTED]"
                 else redactedValue (snd p))) (combine ks xs)
  = combine ks (map redactedValue xs).
Proof.
  intros Hks. revert xs. induction Hks as [|k ks Hk _ IH]; intros [|x xs];
    try reflexivity.
  cbn [combine map fst snd]. now rewrite Hk, IH.
Qed.

(** X24.  In what [redactObject] returns, every property whose key,
    in lower case, is one of the sensitive field names holds the mark
    "[REDACTED]", at any depth, inside arrays too; and redacting a
    second time changes nothing. *)
Theorem redactObject_redacts_deeply (v : JsVal) :
  redacted (redactObject v)
  /\ redactObject (redactObject v) = redactObject v.
Proof.
  assert (Hval : forall x,
    redacted (redactObject x) /\ redactObject (redactObject x) = redactObject x ->
    redacted (redactedValue x) /\ redactedValue (redactedValue x) = redactedValue x).
  { intros x [Hr Hi]. destruct x as [| b | z | s | l | o]; cbn [redactedValue];
      try (split; [exact I | reflexivity]).
    - split; [exact Hr|]. rewrite redactObject_array in *. exact Hi.
    - split; [exact Hr|]. rewrite redactObject_object in *. exact Hi. }
  induction v as [| b | z | s | l IH | o IH] using SanitizerFacts.JsVal_nested_ind;
    try (split; [exact I | reflexivity]).
  - (* arrays *)
    assert (Hel : Forall (fun x => redacted (redactedValue x)
                    /\ redactedValue (redactedValue x) = redactedValue x) l)
      by (eapply Forall_impl; [exact IH | exact Hval]).
    rewrite redactObject_array.
    pose proof (indexKeys_not_sensitive (length l)) as Hks.
    split.
    + cbn [redacted]. clear -Hel Hks. revert Hks. generalize (indexKeys (length l)).
      induction Hel as [|x l [Hx _] _ IHl]; intros [|k ks] Hks; try exact I.
      inversion Hks as [|? ? Hk Hks']; subst.
      cbn [map combine fold_right fst snd]. repeat split.
      * intros Hs. congruence.
      * exact Hx.
      * now apply IHl.
    + rewrite redactObject_object, map_combine_not_sensitive by assumption.
      f_equal. f_equal. rewrite map_map. apply map_ext_Forall.
      eapply Forall_impl; [exact Hel|]. now intros x [_ Hx].
  - (* objects *)
    assert (Hel : Forall (fun p : string * JsVal => redacted (redactedValue (snd p))
                    /\ redactedValue (redactedValue (snd p)) = redactedValue (snd p)) o)
      by (eapply Forall_impl; [exact IH | intros p; apply Hval]).
    rewrite redactObject_object. split.
    + cbn [redacted]. clear -Hel. induction Hel as [|p o [Hp _] _ IHo];
        cbn [map fold_right fst snd]; [exact I|].
      repeat split; try assumption.
      * intros Hs. now rewrite Hs.
      * destruct (sensitive (fst p)); [exact I | exact Hp].
    + rewrite redactObject_object, map_map. f_equal. apply map_ext_Forall.
      eapply Forall_impl; [exact Hel|]. intros p [_ Hp]. cbn [fst snd].
      destruct (sensitive (fst p)); [reflexivity|]. now rewrite Hp.
Qed.

End RedactionFacts.

(** ** Content-type validation *)

Module ContentTypeFacts.
Import Js Security ContentType.

Lemma prefix_app t post : String.prefix t (t +:+ post) = true.
Proof.
  induction t as [|c t IH]; simpl; [now destruct post|].
  destruct (ascii_dec c c); [exact IH | contradiction].
Qed.

Lemma str_includes_app pre t post : str_includes (pre +:+ t +:+ post) t = true.
Proof.
  induction pre as [|c pre IH].
  - change ("" +:+ t +:+ post) with (t +:+ post).
    destruct (t +:+ post) eqn:E; cbn [str_includes];
      rewrite <- E, prefix_app; reflexivity.
  - change (String c pre +:+ t +:+ post) with (String c (pre +:+ t +:+ post)).
    cbn [str_includes]. rewrite IH. apply orb_true_r.
Qed.

(** X25.  [validateContentType] lets every GET, HEAD and OPTIONS request
    through.  Any other request goes through exactly when its
    content-type header is not empty and one of the allowed types occurs
    somewhere in it, so that whatever stands before or after an allowed
    type is accepted with it; every other answer is a 415. *)
Theorem content_type_is_matched_by_substring (allowedTypes : list string) :
  (forall method contentType,
     includes method safeMethods = true ->
     validateContentType allowedTypes method contentType = Next)
  /\ (forall method contentType,
        includes method safeMethods = false ->
        (validateContentType allowedTypes method contentType = Next
         <-> truthy_str contentType = true
             /\ exists type, type ∈ allowedTypes
                             /\ str_includes (of_opt contentType) type = true))
  /\ (forall method type pre post,
        type ∈ allowedTypes -> type <> "" ->
        validateContentType allowedTypes method (Some (pre +:+ type +:+ post)) = Next)
  /\ (forall method contentType,
        validateContentType allowedTypes method contentType = Next
        \/ exists msg,
             validateContentType allowedTypes method contentType
             = Respond (json 415 "Unsupported Media Type" msg)).
Proof.
  assert (Hiff : forall method contentType,
    includes method safeMethods = false ->
    (validateContentType allowedTypes method contentType = Next
     <-> truthy_str contentType = true
         /\ exists type, type ∈ allowedTypes
                         /\ str_includes (of_opt contentType) type = true)).
  { intros method ct Hm. unfold validateContentType. rewrite Hm.
    destruct (truthy_str ct); cbn [negb].
    - destruct (existsb _ allowedTypes) eqn:Hex.
      + apply existsb_exists in Hex as (type & Hin & Hinc).
        split; [|reflexivity]. intros _. split; [reflexivity|].
        exists type. split; [now apply list_elem_of_In | exact Hinc].
      + split; [discriminate|]. intros (_ & type & Hin & Hinc).
        assert (Hyes : existsb (fun type => str_includes (of_opt ct) type)
                         allowedTypes = true)
          by (apply existsb_exists; exists type; split;
              [now apply list_elem_of_In | exact Hinc]).
        congruence.
    - split; [discriminate | intros [Habs _]; discriminate]. }
  split; [|split; [exact Hiff|split]].
  - intros method ct Hm. unfold validateContentType. now rewrite Hm.
  - intros method type pre post Hin Hne.
    destruct (includes method safeMethods) eqn:Hm.
    + unfold validateContentType. now rewrite Hm.
    + apply Hiff; [exact Hm|]. split.
      * apply CsrfFacts.truthy_str_Some. intros Hempty.
        destruct pre; [|discriminate]. destruct type; [contradiction|discriminate].
      * exists type. split; [exact Hin | apply str_includes_app].
  - intros method ct. unfold validateContentType.
    destruct (includes method safeMethods); [now left|].
    destruct (negb (truthy_str ct)); [right; eauto|].
    destruct (existsb _ allowedTypes); [now left | right; eauto].
Qed.

Lemma content_type_is_matched_by_substring_witness :
  validateContentType ["application/json"] "POST"
    (Some ("text/plain; note=" +:+ "application/json" +:+ "; charset=utf-8")) = Next.
Proof.
  apply (proj1 (proj2 (proj2 (content_type_is_matched_by_substring
                                ["application/json"])))
           "POST" "application/json" "text/plain; note=" "; charset=utf-8").
  - set_solver.
  - discriminate.
Defined.

End ContentTypeFacts.
